(** * Shallow embedding of the hyli-noir TypeScript client

    Sources: [src/check_secret.ts] (secret-check variant and the shared
    helpers of [common.ts]) and [src/check_jwt.ts] (JWT variant).

    Conventions.
    - A JavaScript string is its list of UTF-16 code units ([jsstring]).
    - A byte array ([Uint8Array], [number[]] of bytes) is a list of [Z].
    - A thrown exception / rejected promise is [Err e]; [async] functions
      are modelled by the [result] monad.
    - Cryptographic primitives and JavaScript built-ins whose exact tables
      are outside this development (SHA-256, Poseidon2, [JSON.parse],
      [String.prototype.toLowerCase], the Number-to-String conversion) are
      parameters of Sections. *)

From Stdlib Require Import String Ascii ZArith Lia List Bool.
Import ListNotations.
Open Scope list_scope.
Open Scope Z_scope.

(** ** JavaScript values used by the code *)

Definition jsstring := list Z.
Definition bytes := list Z.

(** A Rocq string literal as a JS string (ASCII only). *)
Definition js (s : string) : jsstring :=
  map (fun a => Z.of_nat (nat_of_ascii a)) (list_ascii_of_string s).

Inductive js_error :=
| Error (msg : string)          (* [throw new Error(msg)] *)
| TypeError                     (* property of undefined, not a function *)
| RangeError                    (* [new Array(negative)] *)
| InvalidCharacterError         (* [atob] on malformed input *)
| ExternalError (msg : string). (* failure reported by an external library *)

Inductive result (A : Type) :=
| Ok (a : A)
| Err (e : js_error).
Arguments Ok {A} a.
Arguments Err {A} e.

Definition bind {A B} (m : result A) (k : A -> result B) : result B :=
  match m with Ok a => k a | Err e => Err e end.

Notation "x <- m ;; k" := (bind m (fun x => k))
  (at level 61, m at next level, right associativity).

Definition is_ok {A} (r : result A) : bool :=
  match r with Ok _ => true | Err _ => false end.

(** [assert] of [common.ts]. *)
Definition assert (condition : bool) (message : string) : result unit :=
  if condition then Ok tt else Err (Error message).

(** ** [String.prototype.padEnd] / [padStart] with a one-character filler *)

Definition padEnd (s : jsstring) (maxLength : Z) (fill : Z) : jsstring :=
  if maxLength <=? Z.of_nat (length s) then s
  else s ++ repeat fill (Z.to_nat (maxLength - Z.of_nat (length s))).

Definition padStart (s : jsstring) (maxLength : Z) (fill : Z) : jsstring :=
  if maxLength <=? Z.of_nat (length s) then s
  else repeat fill (Z.to_nat (maxLength - Z.of_nat (length s))) ++ s.

(** The character ["0"] and [":"]. *)
Definition char_0 : Z := 48.
Definition char_colon : Z := 58.

(** ** [TextEncoder.prototype.encode]: UTF-16 code units to UTF-8 bytes

    Code units are first decoded to scalar values: a high surrogate followed
    by a low surrogate forms one code point; every other surrogate is
    replaced by U+FFFD. *)

Definition is_high (c : Z) : bool := (55296 <=? c) && (c <=? 56319).
Definition is_low (c : Z) : bool := (56320 <=? c) && (c <=? 57343).

Fixpoint code_points (s : jsstring) : list Z :=
  match s with
  | [] => []
  | c :: rest =>
      if is_high c then
        match rest with
        | d :: rest' =>
            if is_low d then
              (65536 + (c - 55296) * 1024 + (d - 56320)) :: code_points rest'
            else 65533 :: code_points rest
        | [] => [65533]
        end
      else if is_low c then 65533 :: code_points rest
      else c :: code_points rest
  end.

Definition utf8_of_code_point (cp : Z) : bytes :=
  if cp <? 128 then [cp]
  else if cp <? 2048 then [192 + cp / 64; 128 + cp mod 64]
  else if cp <? 65536 then
    [224 + cp / 4096; 128 + (cp / 64) mod 64; 128 + cp mod 64]
  else [240 + cp / 262144; 128 + (cp / 4096) mod 64;
        128 + (cp / 64) mod 64; 128 + cp mod 64].

Definition utf8_encode (s : jsstring) : bytes :=
  flat_map utf8_of_code_point (code_points s).

(** [stringToBytes] of [common.ts]. *)
Definition stringToBytes (input : jsstring) : bytes := utf8_encode input.

(** ** Secret-check variant: [build_blob] (check_secret.ts, lines 53-66) *)

Record Blob := { contract_name : jsstring; data : bytes }.

Section SecretBlob.
  (** [crypto.subtle.digest("SHA-256", _)], an external primitive. *)
  Variable sha256 : bytes -> bytes.

Definition build_blob (identity password : jsstring) : result Blob :=
    let hashed_password_bytes := sha256 (stringToBytes password) in
    let id_prefix := utf8_encode (identity ++ [char_colon]) in
    let extended_id := id_prefix ++ hashed_password_bytes in
    let stored_hash := sha256 extended_id in
    Ok {| contract_name := js "check_secret"; data := stored_hash |}.
End SecretBlob.

(** ** Assembling the circuit inputs (HyliOutput records) *)

(** A JS array assignment [a[i] = v] in a loop that writes indices in
    increasing order from 0: it replaces an existing element, or appends
    when [i] is the current length. *)
Definition js_array_set (a : list Z) (i : nat) (v : Z) : list Z :=
  if Nat.ltb i (length a) then firstn i a ++ v :: skipn (S i) a
  else a ++ [v].

(** [for (let i = 0; i < src.length; i++) dst[i] = src[i];] *)
Fixpoint copy_loop (src : list Z) (i : nat) (dst : list Z) : list Z :=
  match src with
  | [] => dst
  | x :: src' => copy_loop src' (S i) (js_array_set dst i x)
  end.

Definition zlen {A} (l : list A) : Z := Z.of_nat (length l).

Module CheckSecret.
  (** The [InputMap] returned by [generateProverData] (check_secret.ts,
      lines 154-205). *)
Record InputMap := {
    version : Z;
    initial_state : list Z;
    initial_state_len : Z;
    next_state : list Z;
    next_state_len : Z;
    identity : jsstring;
    identity_len : Z;
    tx_hash : jsstring;
    tx_hash_len : Z;
    index : Z;
    blob_number : Z;
    blob_index : Z;
    blob_contract_name_len : Z;
    blob_contract_name : jsstring;
    blob_capacity : Z;
    blob_len : Z;
    blob : bytes;
    tx_blob_count : Z;
    success : Z;
    password : bytes
  }.

Definition generateProverData (id : jsstring) (pwd stored_hash : bytes)
      (tx : jsstring) (blob_index tx_blob_count : Z) : result InputMap :=
    let version := 1 in
    let initial_state := [0; 0; 0; 0] in
    let initial_state_len := zlen initial_state in
    let next_state := [0; 0; 0; 0] in
    let next_state_len := zlen next_state in
    let identity_len := zlen id in
    let identity := padEnd id 256 char_0 in
    let tx_hash := padEnd tx 64 char_0 in
    let tx_hash_len := zlen tx_hash in
    let index := blob_index in
    let blob_number := 1 in
    let blob_contract_name_len := zlen (js "check_secret") in
    let blob_contract_name := padEnd (js "check_secret") 256 char_0 in
    let blob_capacity := 32 in
    let blob_len := 32 in
    let blob := stored_hash in
    let success := 1 in
    let password := pwd in
    _ <- assert (zlen password =? 32) "Password length is not 32 bytes" ;;
    _ <- assert (zlen blob =? blob_len) "Blob length is not 32 bytes" ;;
    Ok {| version := version; initial_state := initial_state;
          initial_state_len := initial_state_len; next_state := next_state;
          next_state_len := next_state_len; identity := identity;
          identity_len := identity_len; tx_hash := tx_hash;
          tx_hash_len := tx_hash_len; index := index;
          blob_number := blob_number; blob_index := blob_index;
          blob_contract_name_len := blob_contract_name_len;
          blob_contract_name := blob_contract_name;
          blob_capacity := blob_capacity; blob_len := blob_len; blob := blob;
          tx_blob_count := tx_blob_count; success := success;
          password := password |}.
End CheckSecret.

(** [export const contract_name = "check_jwt";] *)
Definition jwt_contract_name : jsstring := js "check_jwt".

Module CheckJwt.
  (** The record returned by [generateHyli] (check_jwt.ts, lines 120-153). *)
Record HyliInput := {
    version : Z;
    initial_state : list Z;
    initial_state_len : Z;
    next_state : list Z;
    next_state_len : Z;
    identity : jsstring;
    identity_len : Z;
    tx_hash : jsstring;
    index : Z;
    blob_number : Z;
    blob_index : Z;
    blob_contract_name_len : Z;
    blob_contract_name : jsstring;
    blob_capacity : Z;
    blob_len : Z;
    blob : bytes;
    tx_blob_count : Z;
    success : bool
  }.

Definition generateHyli (id : jsstring) (stored_hash : bytes)
      (tx_hash : jsstring) (blob_index tx_blob_count : Z) : result HyliInput :=
    let initial_state := [0; 0; 0; 0] in
    let next_state := [0; 0; 0; 0] in
    let blob_capacity := 512 in
    let blob_len := 306 in
    _ <- assert (zlen stored_hash =? blob_len)
           "Blob length is ${stored_hash.length} not ${blob_len} bytes" ;;
    let padded_blob := copy_loop stored_hash 0 (repeat 0 512) in
    Ok {| version := 1; initial_state := initial_state;
          initial_state_len := zlen initial_state; next_state := next_state;
          next_state_len := zlen next_state;
          identity := padEnd id 256 char_0; identity_len := zlen id;
          tx_hash := padEnd tx_hash 64 char_0; index := blob_index;
          blob_number := 1; blob_index := blob_index;
          blob_contract_name_len := zlen jwt_contract_name;
          blob_contract_name := padEnd jwt_contract_name 256 char_0;
          blob_capacity := blob_capacity; blob_len := blob_len;
          blob := padded_blob; tx_blob_count := tx_blob_count;
          success := true |}.
End CheckJwt.

(** ** Public inputs to bytes: [flattenFieldsAsArray] (check_secret.ts,
    lines 230-263) *)

(** [BigInt.prototype.toString(16)]: the radix-16 digits of the value,
    lower case, without leading zeros (["0"] for 0), with a leading ["-"]
    for a negative value. *)
Definition hex_char (d : Z) : Z := if d <? 10 then 48 + d else 87 + d.

Definition radix16_digits (n : nat) (v : Z) : jsstring :=
  map (fun i => hex_char ((v / 16 ^ Z.of_nat (n - 1 - i)) mod 16)) (seq 0 n).

Definition hex_digit_count (v : Z) : nat :=
  if v =? 0 then 1 else S (Z.to_nat (Z.log2 v / 4)).

Definition bigint_toString16 (v : Z) : jsstring :=
  if v <? 0 then 45 :: radix16_digits (hex_digit_count (- v)) (- v)
  else radix16_digits (hex_digit_count v) v.

(** [parseInt(str, 16)]: leading white space, an optional sign, an optional
    ["0x"]/["0X"] prefix, then the longest run of hexadecimal digits;
    [None] is [NaN]. *)
Definition js_whitespace (c : Z) : bool :=
  existsb (Z.eqb c)
    [9; 10; 11; 12; 13; 32; 160; 5760; 8192; 8193; 8194; 8195; 8196; 8197;
     8198; 8199; 8200; 8201; 8202; 8232; 8233; 8239; 8287; 12288; 65279].

Fixpoint trim_start (s : jsstring) : jsstring :=
  match s with
  | c :: r => if js_whitespace c then trim_start r else s
  | [] => []
  end.

Definition hex_value (c : Z) : option Z :=
  if (48 <=? c) && (c <=? 57) then Some (c - 48)
  else if (97 <=? c) && (c <=? 102) then Some (c - 87)
  else if (65 <=? c) && (c <=? 70) then Some (c - 55)
  else None.

Fixpoint hex_prefix (s : jsstring) (acc : Z) (seen : bool) : option Z :=
  match s with
  | c :: r =>
      match hex_value c with
      | Some d => hex_prefix r (acc * 16 + d) true
      | None => if seen then Some acc else None
      end
  | [] => if seen then Some acc else None
  end.

Definition parseInt16 (str : jsstring) : option Z :=
  let s := trim_start str in
  let '(sign, s) :=
    match s with
    | 45 :: r => (-1, r)
    | 43 :: r => (1, r)
    | _ => (1, s)
    end in
  let s :=
    match s with
    | 48 :: c :: r => if (c =? 120) || (c =? 88) then r else s
    | _ => s
    end in
  match hex_prefix s 0 false with
  | Some v => Some (sign * v)
  | None => None
  end.

(** Storing a number into a [Uint8Array]: ToUint8 ([NaN] is 0), and a write
    at an index outside the array is ignored. *)
Definition ToUint8 (n : option Z) : Z :=
  match n with Some z => z mod 256 | None => 0 end.

Definition typed_set (u8 : list Z) (i : nat) (v : Z) : list Z :=
  if Nat.ltb i (length u8) then firstn i u8 ++ v :: skipn (S i) u8 else u8.

(** [String.prototype.slice(j, j + 2)] for [0 <= j]. *)
Definition slice2 (s : jsstring) (j : nat) : jsstring := firstn 2 (skipn j s).

Section Fields.
  (** [BigInt(string)]: the ECMAScript StringToBigInt conversion (throws a
      SyntaxError on a string that is not an integer literal). *)
  Variable BigInt : jsstring -> result Z.

  (** [hexToUint8Array]: [len = sanitisedHex.length / 2] is a JS number;
      [new Uint8Array(len)] truncates it, and [while (i < len)] runs
      [ceil(len)] times with [j = 2 * i]. *)
Definition hexToUint8Array (hex : jsstring) : result (list Z) :=
    v <- BigInt hex ;;
    let sanitisedHex := padStart (bigint_toString16 v) 64 char_0 in
    let L := length sanitisedHex in
    let u8 := repeat 0 (L / 2) in
    Ok (fold_left
          (fun u8 i => typed_set u8 i (ToUint8 (parseInt16 (slice2 sanitisedHex (2 * i)))))
          (seq 0 ((L + 1) / 2)) u8).

  (** [TypedArray.prototype.set(arr, offset)]. *)
Definition typed_set_range (result_ : list Z) (arr : list Z) (offset : nat)
      : result (list Z) :=
    if Nat.ltb (length result_) (offset + length arr) then Err RangeError
    else Ok (firstn offset result_ ++ arr ++ skipn (offset + length arr) result_).

Fixpoint flatten_loop (arrays : list (list Z)) (result_ : list Z) (offset : nat)
      : result (list Z) :=
    match arrays with
    | [] => Ok result_
    | arr :: rest =>
        r <- typed_set_range result_ arr offset ;;
        flatten_loop rest r (offset + length arr)
    end.

Definition flattenUint8Arrays (arrays : list (list Z)) : result (list Z) :=
    let totalLength := fold_left (fun acc val => (acc + length val)%nat) arrays 0%nat in
    flatten_loop arrays (repeat 0 totalLength) 0.

  (** [fields.map(hexToUint8Array)]: the first exception propagates. *)
Fixpoint map_result {A B} (f : A -> result B) (l : list A) : result (list B) :=
    match l with
    | [] => Ok []
    | x :: r => y <- f x ;; ys <- map_result f r ;; Ok (y :: ys)
    end.

Definition flattenFieldsAsArray (fields : list jsstring) : result (list Z) :=
    flattenedPublicInputs <- map_result hexToUint8Array fields ;;
    flattenUint8Arrays flattenedPublicInputs.
End Fields.

(** [reconstructHonkProof] of [@aztec/bb.js] (an external library):
    [Uint8Array.from([...publicInputs, ...proof])]. *)
Definition reconstructHonkProof (publicInputs proof : bytes) : bytes :=
  publicInputs ++ proof.

(** The fixed-width big-endian encoding used by the specification: byte [i]
    of the 32 bytes of [v] is [(v / 256^(31-i)) mod 256]. *)
Definition be32 (v : Z) : bytes :=
  map (fun i => (v / 256 ^ (31 - Z.of_nat i)) mod 256) (seq 0 32).

(** ** Proof transactions ([build_proof_transaction] of both variants) *)

(** The value returned by [UltraHonkBackend.generateProof]: the public
    inputs as field-element strings and the raw proof bytes. *)
Module BackendProof.
Record ProofData := { publicInputs : list jsstring; proof : bytes }.
End BackendProof.

Module ProofTx.
Record ProofTransaction :=
    { contract_name : jsstring; program_id : bytes; verifier : jsstring; proof : bytes }.
End ProofTx.

(** check_secret.ts, lines 85-116. The Noir and bb.js calls are external:
    [getVerificationKey], [noir.execute] and [generateProof] are
    parameters, each of which may throw. *)
Module CheckSecretProof.
  Section Build.
    Variable Witness : Type.
    Variable BigInt : jsstring -> result Z.
    Variable sha256 : bytes -> bytes.
    Variable getVerificationKey : result bytes.
    Variable noir_execute : CheckSecret.InputMap -> result Witness.
    Variable generateProof : Witness -> result BackendProof.ProofData.

Definition build_proof_transaction (identity password tx_hash : jsstring)
        (blob_index tx_blob_count : Z) : result ProofTx.ProofTransaction :=
      vk <- getVerificationKey ;;
      let hashed_password_bytes := sha256 (stringToBytes password) in
      let id_prefix := utf8_encode (identity ++ [char_colon]) in
      let extended_id := id_prefix ++ hashed_password_bytes in
      let stored_hash := sha256 extended_id in
      inputs <- CheckSecret.generateProverData identity hashed_password_bytes stored_hash
                  tx_hash blob_index tx_blob_count ;;
      witness <- noir_execute inputs ;;
      proof <- generateProof witness ;;
      flat <- flattenFieldsAsArray BigInt (BackendProof.publicInputs proof) ;;
      let reconstructedProof := reconstructHonkProof flat (BackendProof.proof proof) in
      Ok {| ProofTx.contract_name := js "check_secret";
            ProofTx.program_id := vk;
            ProofTx.verifier := js "noir";
            ProofTx.proof := reconstructedProof |}.
  End Build.
End CheckSecretProof.

(** check_jwt.ts, lines 26-82. [generateInputs] of [noir-jwt] is external;
    [jwtPubkey] is [None] when it is [undefined] (a JWK object is truthy),
    and a string is falsy exactly when it is empty. *)
Module CheckJwtProof.
  Section Build.
    Variable JsonWebKey JwtInputs Witness : Type.
    Variable BigInt : jsstring -> result Z.
    Variable generateInputs : jsstring -> JsonWebKey -> result JwtInputs.
    Variable getVerificationKey : result bytes.
    Variable noir_execute : CheckJwt.HyliInput * JwtInputs -> result Witness.
    Variable generateProof : Witness -> result BackendProof.ProofData.

Definition build_proof_transaction (identity : jsstring) (stored_hash : bytes)
        (tx : jsstring) (blob_index tx_blob_count : Z) (idToken : jsstring)
        (jwtPubkey : option JsonWebKey) (jwtInputsOverride : option JwtInputs)
        : result ProofTx.ProofTransaction :=
      jwtInputs <-
        match jwtInputsOverride with
        | Some o => Ok o
        | None =>
            match idToken, jwtPubkey with
            | _ :: _, Some pk => generateInputs idToken pk
            | _, _ => Err (Error "[JWT Circuit] Proof generation failed: idToken and jwtPubkey are required")
            end
        end ;;
      hyli <- CheckJwt.generateHyli identity stored_hash tx blob_index tx_blob_count ;;
      vk <- getVerificationKey ;;
      witness <- noir_execute (hyli, jwtInputs) ;;
      proof <- generateProof witness ;;
      flat <- flattenFieldsAsArray BigInt (BackendProof.publicInputs proof) ;;
      let reconstructedProof := reconstructHonkProof flat (BackendProof.proof proof) in
      Ok {| ProofTx.contract_name := jwt_contract_name;
            ProofTx.program_id := vk;
            ProofTx.verifier := js "noir";
            ProofTx.proof := reconstructedProof |}.
  End Build.
End CheckJwtProof.

(** A field string denoting an integer in [[0, 2^256)]. *)
Definition field_in_range (BigInt : jsstring -> result Z) (s : jsstring) (v : Z) : Prop :=
  BigInt s = Ok v /\ 0 <= v < 2 ^ 256.

(** ** JWT blob: base64, claims and the stored hash (check_jwt.ts, common.ts) *)

(** [atob] follows the WHATWG forgiving-base64 decode. It is specified on
    code points; the model counts code units, which gives the same outcome,
    since any non-ASCII character makes the decode fail in either case. *)
Definition is_ascii_whitespace (c : Z) : bool :=
  (c =? 9) || (c =? 10) || (c =? 12) || (c =? 13) || (c =? 32).

(** The standard base64 alphabet [A-Z a-z 0-9 + /]. *)
Definition b64_value (c : Z) : option Z :=
  if (65 <=? c) && (c <=? 90) then Some (c - 65)
  else if (97 <=? c) && (c <=? 122) then Some (c - 71)
  else if (48 <=? c) && (c <=? 57) then Some (c + 4)
  else if c =? 43 then Some 62
  else if c =? 47 then Some 63
  else None.

Fixpoint b64_values (s : jsstring) : option (list Z) :=
  match s with
  | [] => Some []
  | c :: rest =>
      match b64_value c, b64_values rest with
      | Some v, Some vs => Some (v :: vs)
      | _, _ => None
      end
  end.

(** Step 2: when the length is a multiple of 4, drop one or two trailing
    [=]. *)
Definition strip_padding (data : jsstring) : jsstring :=
  if Nat.eqb (length data mod 4) 0 then
    match rev data with
    | a :: b :: r => if (a =? 61) && (b =? 61) then rev r
                     else if a =? 61 then rev (b :: r) else data
    | [a] => if a =? 61 then [] else data
    | [] => data
    end
  else data.

(** Steps 7-8: six bits per character into [buffer]; 24 bits give three
    bytes; a 12-bit remainder gives one byte (4 bits dropped), an 18-bit one
    two bytes (2 bits dropped). *)
Fixpoint decode_sextets (vals : list Z) (buffer : Z) (bits : nat) : list Z :=
  match vals with
  | [] =>
      if Nat.eqb bits 12 then [buffer / 16]
      else if Nat.eqb bits 18 then [(buffer / 4) / 256; (buffer / 4) mod 256]
      else []
  | v :: rest =>
      let buffer := buffer * 64 + v in
      if Nat.eqb (bits + 6) 24 then
        [buffer / 65536; (buffer / 256) mod 256; buffer mod 256]
          ++ decode_sextets rest 0 0
      else decode_sextets rest buffer (bits + 6)
  end.

(** [atob(data)]: the result is a binary string, one code unit per byte. *)
Definition atob (data : jsstring) : result jsstring :=
  let data := filter (fun c => negb (is_ascii_whitespace c)) data in
  let data := strip_padding data in
  if Nat.eqb (length data mod 4) 1 then Err InvalidCharacterError
  else match b64_values data with
       | None => Err InvalidCharacterError
       | Some vals => Ok (decode_sextets vals 0 0)
       end.

(** [s.replace(/-/g, "+").replace(/_/g, "/")]. *)
Definition b64url_to_b64 (s : jsstring) : jsstring :=
  map (fun c => if c =? 95 then 47 else c)
      (map (fun c => if c =? 45 then 43 else c) s).

(** [b64urlToU8] of [common.ts]: [out[i] = bin.charCodeAt(i)] stores the
    code unit modulo 256. *)
Definition b64urlToU8 (s : jsstring) : result bytes :=
  let s := b64url_to_b64 s in
  bin <- atob s ;;
  Ok (map (fun c => c mod 256) bin).

(** [bytesToBigInt] of [common.ts]. *)
Definition bytesToBigInt (bs : bytes) : Z :=
  fold_left (fun result_ b => Z.shiftl result_ 8 + b) bs 0.

(** The string iterator: a surrogate pair is one element, any other code
    unit (a lone surrogate included) is one element. *)
Fixpoint string_iter (s : jsstring) : list jsstring :=
  match s with
  | [] => []
  | c :: rest =>
      if is_high c then
        match rest with
        | d :: rest' => if is_low d then [c; d] :: string_iter rest'
                        else [c] :: string_iter rest
        | [] => [[c]]
        end
      else [c] :: string_iter rest
  end.

(** [Uint8Array.from(str, (c) => c.charCodeAt(0))]. *)
Definition Uint8Array_from_charCodes (s : jsstring) : bytes :=
  map (fun ch => (hd 0 ch) mod 256) (string_iter s).

(** [new Array(len).fill(0)]: a negative length is a RangeError. *)
Definition new_array_fill0 (len : Z) : result (list Z) :=
  if len <? 0 then Err RangeError else Ok (repeat 0 (Z.to_nat len)).

(** A value produced by [JSON.parse]; a number keeps its source lexeme. *)
Module JsonValue.
#[warnings="-register-all"]
Inductive json :=
  | JNull
  | JBool (b : bool)
  | JNumber (lexeme : jsstring)
  | JString (s : jsstring)
  | JArray (items : list json)
  | JObject (fields : list (jsstring * json)).
End JsonValue.
Import JsonValue.

(** [v.key] on a parsed JSON value: [None] is [undefined]; on [null] it
    throws; an object with a repeated key keeps the last value. *)
Definition get_prop (v : json) (key : jsstring) : result (option json) :=
  match v with
  | JNull => Err TypeError
  | JObject fields =>
      Ok (option_map snd
            (find (fun kv => if list_eq_dec Z.eq_dec (fst kv) key then true else false)
                  (rev fields)))
  | _ => Ok None
  end.

Module JwtClaims.
Record Claims := { email : jsstring; nonce : jsstring; kid : option json }.
End JwtClaims.

(** An element of [keys]: [key.kid] is a string, [n] may be absent. *)
Module Jwk.
Record SigningKey := { kid : jsstring; n : option jsstring }.
End Jwk.

Module StoredHash.
Record StoredHash := { mail_hash : bytes; stored_hash : bytes }.
End StoredHash.

Module BlobFromJwt.
Record BlobFromJwt (number : Type) :=
    { blob : Blob; nonce : number; mail_hash : bytes; pubkey : Jwk.SigningKey }.
End BlobFromJwt.

(** [jwt.split(".")]. *)
Fixpoint split_dot (s : jsstring) : list jsstring :=
  match s with
  | [] => [[]]
  | c :: rest =>
      let parts := split_dot rest in
      if c =? 46 then [] :: parts
      else match parts with
           | p :: ps => (c :: p) :: ps
           | [] => [[c]]
           end
  end.

(** The [i]-th element of a destructured array; a missing one is
    [undefined], which [atob] converts to the string ["undefined"]. *)
Definition segment (parts : list jsstring) (i : nat) : jsstring :=
  match nth_error parts i with Some p => p | None => js "undefined" end.

Section Jwt.
  (** [JSON.parse] and [String.prototype.toLowerCase]. *)
  Variable JSON_parse : jsstring -> result json.
  Variable toLowerCase : jsstring -> jsstring.

  (** [v.toLowerCase()]: only a string has the method. *)
Definition toLowerCase_value (v : option json) : result jsstring :=
    match v with
    | Some (JString s) => Ok (toLowerCase s)
    | _ => Err TypeError
    end.

Definition extract_jwt_claims (jwt : jsstring) : result JwtClaims.Claims :=
    let parts := split_dot jwt in
    let header := segment parts 0 in
    let payload := segment parts 1 in
    h <- atob header ;;
    headers <- JSON_parse h ;;
    p <- atob payload ;;
    json_ <- JSON_parse p ;;
    e <- get_prop json_ (js "email") ;;
    email <- toLowerCase_value e ;;
    n <- get_prop json_ (js "nonce") ;;
    nonce <- toLowerCase_value n ;;
    kid <- get_prop headers (js "kid") ;;
    Ok {| JwtClaims.email := email; JwtClaims.nonce := nonce; JwtClaims.kid := kid |}.
End Jwt.
(** [Fr.MODULUS] of bb.js: the order of the BN254 scalar field. *)
Definition Fr_MODULUS : Z :=
  0x30644e72e131a029b85045b68181585d2833e84879b9709143e1f593f0000001.

(** [new Fr(value)] of bb.js on a bigint: it throws an [Error] when
    [value > Fr.MAX_VALUE], where [Fr.MAX_VALUE = Fr.MODULUS - 1]. *)
Definition new_Fr (value : Z) : result Z :=
  if Fr_MODULUS - 1 <? value
  then Err (Error "Value 0x${value.toString(16)} is greater or equal to field modulus.")
  else Ok value.

Section JwtBlob.
(** JS numbers (the result of [parseInt]) are kept abstract: [Number_toString]
    is the template literal [`${nonce}`], [parseInt10] is [parseInt(_, 10)]. *)
Variable number : Type.
Variable Number_toString : number -> jsstring.
Variable parseInt10 : jsstring -> number.
(** [bb.poseidon2Hash([fr])] followed by [.value] (bb.js, external), on
    the value of a field element. *)
Variable poseidon2Hash : Z -> result bytes.
(** [!v] for a JSON number, by its lexeme. *)
Variable number_truthy : jsstring -> bool.
(** [key.kid == kid]: loose equality of a string and a claim value. *)
Variable loose_eq : jsstring -> option json -> bool.
Variable JSON_parse : jsstring -> result json.
Variable toLowerCase : jsstring -> jsstring.

Definition poseidon_hash (s : jsstring) : result bytes :=
  fr <- new_Fr (bytesToBigInt (utf8_encode s)) ;;
  poseidon2Hash fr.

(** [build_stored_hash]. [pubkey] is typed [string] in the source;
    [build_blob_from_jwt] passes [pubkey.n], which is [undefined] ([None])
    when the key has no [n]; then [s.replace] throws a TypeError. *)
Definition build_stored_hash (email : jsstring) (nonce : number)
    (pubkey : option jsstring) : result StoredHash.StoredHash :=
  mail_hash <- poseidon_hash email ;;
  let encoded := Uint8Array_from_charCodes (Number_toString nonce) in
  let remaining_len := 16 - zlen encoded in
  zeros <- new_array_fill0 remaining_len ;;
  key <- match pubkey with Some s => b64urlToU8 s | None => Err TypeError end ;;
  Ok {| StoredHash.mail_hash := mail_hash;
        StoredHash.stored_hash := mail_hash ++ [58] ++ encoded ++ zeros ++ [58] ++ rev key |}.

(** JS truthiness of a string and of a property value. *)
Definition truthy_string (s : jsstring) : bool :=
  match s with [] => false | _ => true end.

Definition truthy_value (v : option json) : bool :=
  match v with
  | None | Some JNull => false
  | Some (JBool b) => b
  | Some (JNumber l) => number_truthy l
  | Some (JString s) => truthy_string s
  | Some (JArray _) | Some (JObject _) => true
  end.

Definition build_blob_from_jwt (jwt : jsstring) (keys : list Jwk.SigningKey)
    : result (BlobFromJwt.BlobFromJwt number) :=
  claims <- extract_jwt_claims JSON_parse toLowerCase jwt ;;
  let email := JwtClaims.email claims in
  let nonce := JwtClaims.nonce claims in
  let kid := JwtClaims.kid claims in
  if negb (truthy_string email) || negb (truthy_string nonce) || negb (truthy_value kid) then
    Err (Error "Invalid Google token: missing email, nonce, or kid")
  else
    match find (fun key => loose_eq (Jwk.kid key) kid) keys with
    | None => Err (Error "Google public key with id ${kid} not found")
    | Some pubkey =>
        let nonce_int := parseInt10 nonce in
        hash <- build_stored_hash email nonce_int (Jwk.n pubkey) ;;
        Ok {| BlobFromJwt.nonce := nonce_int;
              BlobFromJwt.mail_hash := StoredHash.mail_hash hash;
              BlobFromJwt.pubkey := pubkey;
              BlobFromJwt.blob := {| contract_name := jwt_contract_name;
                                      data := StoredHash.stored_hash hash |} |}
    end.
End JwtBlob.

(** The unpadded base64url encoding of RFC 4648, section 5, following the
    specification's [base64url_decode]: it is the reference the decoder of
    the code is compared with. *)
Definition spec_b64url_char (v : Z) : Z :=
  if v <? 26 then 65 + v
  else if v <? 52 then 71 + v
  else if v <? 62 then v - 4
  else if v =? 62 then 45 else 95.

Fixpoint spec_sextets (m : bytes) : list Z :=
  match m with
  | a :: b :: c :: rest =>
      a / 4 :: (a mod 4) * 16 + b / 16 :: (b mod 16) * 4 + c / 64 :: c mod 64
        :: spec_sextets rest
  | [a; b] => [a / 4; (a mod 4) * 16 + b / 16; (b mod 16) * 4]
  | [a] => [a / 4; (a mod 4) * 16]
  | [] => []
  end.

Definition spec_b64url_encode (m : bytes) : jsstring :=
  map spec_b64url_char (spec_sextets m).

Definition is_byte (b : Z) : Prop := 0 <= b < 256.

(** ** Contract registration ([register_contract] of both variants) *)

Module ContractRegistration.
Record Contract :=
  { verifier : jsstring; program_id : bytes; state_commitment : list Z;
    contract_name : jsstring }.
End ContractRegistration.

(** A node client as a ledger mock: the outcome of the [k]-th [getContract]
    call is scripted, and every [registerContract] call is logged (also one
    that fails). *)
Module NodeMock.
Record Node :=
  { get_outcome : nat -> result unit;
    gets : nat;
    register_outcome : result unit;
    registered : list ContractRegistration.Contract }.
End NodeMock.
Import NodeMock.

(** Asynchronous code over the node: a state and error monad. *)
Definition nodeM (A : Type) : Type := Node -> result A * Node.

Definition nret {A} (a : A) : nodeM A := fun st => (Ok a, st).

Definition nbind {A B} (m : nodeM A) (k : A -> nodeM B) : nodeM B :=
  fun st => match m st with
            | (Ok a, st') => k a st'
            | (Err e, st') => (Err e, st')
            end.

Notation "x <-- m ;;; k" := (nbind m (fun x => k))
  (at level 61, m at next level, right associativity).

Definition nlift {A} (r : result A) : nodeM A := fun st => (r, st).

(** [promise.catch(handler)]: any rejection runs the handler. *)
Definition ncatch {A} (m : nodeM A) (handler : js_error -> nodeM A) : nodeM A :=
  fun st => match m st with
            | (Ok a, st') => (Ok a, st')
            | (Err e, st') => handler e st'
            end.

Definition getContract (name : jsstring) : nodeM unit :=
  fun st =>
    (get_outcome st (gets st),
     {| get_outcome := get_outcome st; gets := S (gets st);
        register_outcome := register_outcome st; registered := registered st |}).

Definition registerContract (c : ContractRegistration.Contract) : nodeM unit :=
  fun st =>
    (register_outcome st,
     {| get_outcome := get_outcome st; gets := gets st;
        register_outcome := register_outcome st; registered := registered st ++ [c] |}).

Section Register.
(** [new UltraHonkBackend(circuit.bytecode).getVerificationKey()]. *)
Variable getVerificationKey : result bytes.

(** check_secret.ts, lines 127-143. *)
Definition register_contract_secret : nodeM unit :=
  ncatch (getContract (js "check_secret"))
    (fun _ =>
       vk <-- nlift getVerificationKey ;;;
       registerContract {| ContractRegistration.verifier := js "noir";
                           ContractRegistration.program_id := vk;
                           ContractRegistration.state_commitment := [0; 0; 0; 0];
                           ContractRegistration.contract_name := js "check_secret" |}).

(** check_jwt.ts, lines 181-202: [.then(() => undefined)] gives [None],
    the handler returns the program id. *)
Definition register_contract_jwt : nodeM (option bytes) :=
  ncatch (_ <-- getContract jwt_contract_name ;;; nret None)
    (fun _ =>
       vk <-- nlift getVerificationKey ;;;
       let contract := {| ContractRegistration.verifier := js "noir";
                          ContractRegistration.program_id := vk;
                          ContractRegistration.state_commitment := [0; 0; 0; 0];
                          ContractRegistration.contract_name := jwt_contract_name |} in
       _ <-- registerContract contract ;;;
       nret (Some (ContractRegistration.program_id contract))).
End Register.

(** The ledger's answer to a missing contract, and some other failure. *)
Definition NotFoundError : js_error := ExternalError "NotFoundError".
Definition ServerError : js_error := ExternalError "500 Internal Server Error".

(** The request both handlers send: [verifier "noir"], the verification
    key as program id, a zero state commitment. *)
Definition registration_request (name : jsstring) (vk : bytes) : ContractRegistration.Contract :=
  {| ContractRegistration.verifier := js "noir";
     ContractRegistration.program_id := vk;
     ContractRegistration.state_commitment := [0; 0; 0; 0];
     ContractRegistration.contract_name := name |}.

(** ** A Google-style ID token (test data)

    JSON text is written with ['] standing for the double quote. *)
Definition json_text (s : string) : jsstring :=
  map (fun c => if c =? 39 then 34 else c) (js s).

Definition sample_header_json : jsstring :=
  json_text "{'alg':'RS256','kid':'k1','typ':'JWT'}".

(** The payload carries a name with a non-ASCII letter (U+00EB). *)
Definition sample_payload_json : jsstring :=
  json_text "{'email':'Alice@Example.com','nonce':'123','name':'Zo" ++ [235] ++ json_text "'}".

Definition sample_header_segment : jsstring :=
  js "eyJhbGciOiJSUzI1NiIsImtpZCI6ImsxIiwidHlwIjoiSldUIn0".

Definition sample_payload_segment : jsstring :=
  js "eyJlbWFpbCI6IkFsaWNlQEV4YW1wbGUuY29tIiwibm9uY2UiOiIxMjMiLCJuYW1lIjoiWm_DqyJ9".

Definition sample_jwt : jsstring :=
  sample_header_segment ++ js "." ++ sample_payload_segment ++ js ".c2ln".

(** Helpers of the base64url proofs: the characters after [b64url_to_b64]. *)
Definition url_fix (c : Z) : Z :=
  (fun c => if c =? 95 then 47 else c) ((fun c => if c =? 45 then 43 else c) c).

Definition b64url_char_check (x : Z) : bool :=
  let c := url_fix (spec_b64url_char x) in
  match b64_value c with Some y => y =? x | None => false end
  && negb (is_ascii_whitespace c) && negb (c =? 61).

Definition is_ascii_unit (c : Z) : Prop := 0 <= c < 128.

(** A JavaScript string is a sequence of 16-bit code units. *)
Definition is_code_unit (c : Z) : Prop := 0 <= c < 65536.


(** ** Hex strings and the identity hash (check_secret.ts, check_jwt.ts) *)

(** [encodeToHex] of common.ts (check_secret.ts, lines 224-228): for an
    integer, [Number.prototype.toString(16)] writes the same digits as for a
    BigInt; [join("")] concatenates the pieces. *)
Definition encodeToHex (data : bytes) : jsstring :=
  concat (map (fun byte => padStart (bigint_toString16 byte) 2 char_0) data).

(** [Buffer.from(bytes).toString("hex")] of Node.js: two lower-case hex
    digits per byte. *)
Definition hex_pair (x : Z) : jsstring := [hex_char (x / 16); hex_char (x mod 16)].

Definition Buffer_toString_hex (b : bytes) : jsstring := flat_map hex_pair b.

(** [identity_hash] of check_secret.ts, lines 32-40. *)
Module SecretIdentity.
Section Hash.
Variable sha256 : bytes -> bytes.

Definition identity_hash (identity password : jsstring) : jsstring :=
  let hashed_password_bytes := sha256 (stringToBytes password) in
  let id_prefix := utf8_encode (identity ++ [char_colon]) in
  let extended_id := id_prefix ++ hashed_password_bytes in
  let computed_hash := sha256 extended_id in
  Buffer_toString_hex computed_hash.
End Hash.
End SecretIdentity.

(** [splitBigIntToLimbs] (check_secret.ts, lines 273-281). BigInt [/]
    truncates toward zero and throws a RangeError on a zero divisor (a
    negative shift count shifts right); [numLimbs] is the number of loop
    iterations. *)
Definition splitBigIntToLimbs (bigInt byteLength : Z) (numLimbs : nat) : result (list Z) :=
  let mask := Z.shiftl 1 byteLength - 1 in
  map_result
    (fun i =>
       let d := Z.shiftl 1 (Z.of_nat i * byteLength) in
       if d =? 0 then Err RangeError else Ok (Z.land (Z.quot bigInt d) mask))
    (seq 0 numLimbs).

(** The value of little-endian limbs of [bl] bits each. *)
Fixpoint limbs_value (bl : Z) (limbs : list Z) : Z :=
  match limbs with [] => 0 | c :: r => c + 2 ^ bl * limbs_value bl r end.

(** The secret-check code as it is repeated in check_jwt.ts, lines 270-462:
    [identity_hash] there uses [encodeToHex], and [generateProverData] pads
    the stored hash to 32 bytes and returns [{ hyli_output, password }]. *)
Module SecretCopy.
Section Hash.
Variable sha256 : bytes -> bytes.

(** check_jwt.ts, lines 301-309. *)
Definition identity_hash (identity password : jsstring) : jsstring :=
  let hashed_password_bytes := sha256 (stringToBytes password) in
  let id_prefix := utf8_encode (identity ++ [char_colon]) in
  let extended_id := id_prefix ++ hashed_password_bytes in
  let computed_hash := sha256 extended_id in
  encodeToHex computed_hash.
End Hash.

Record HyliOutput := {
  version : Z;
  initial_state : list Z;
  initial_state_len : Z;
  next_state : list Z;
  next_state_len : Z;
  identity_len : Z;
  identity : jsstring;
  tx_hash : jsstring;
  index : Z;
  blob_number : Z;
  blob_index : Z;
  blob_contract_name_len : Z;
  blob_contract_name : jsstring;
  blob_capacity : Z;
  blob_len : Z;
  blob : list Z;
  tx_blob_count : Z;
  success : Z
}.

Record ProverData := { hyli_output : HyliOutput; password : bytes }.

(** check_jwt.ts, lines 423-462: [new Array(32).fill(0)], then
    [padded[i] = stored_hash[i]] for every index of [stored_hash]. *)
Definition generateProverData (id : jsstring) (pwd stored_hash : bytes)
    (tx : jsstring) (blob_index tx_blob_count : Z) : result ProverData :=
  let hyli_output :=
    {| version := 1;
       initial_state := [0; 0; 0; 0];
       initial_state_len := 4;
       next_state := [0; 0; 0; 0];
       next_state_len := 4;
       identity_len := zlen id;
       identity := padEnd id 256 char_0;
       tx_hash := padEnd tx 64 char_0;
       index := blob_index;
       blob_number := 1;
       blob_index := blob_index;
       blob_contract_name_len := zlen (js "check_secret");
       blob_contract_name := padEnd (js "check_secret") 256 char_0;
       blob_capacity := 32;
       blob_len := 32;
       blob := copy_loop stored_hash 0 (repeat 0 32);
       tx_blob_count := tx_blob_count;
       success := 1 |} in
  _ <- assert (zlen (blob hyli_output) =? 32) "HyliOutput blob must be 32 bytes" ;;
  let password := pwd in
  _ <- assert (zlen password =? 32) "Password length is not 32 bytes" ;;
  Ok {| hyli_output := hyli_output; password := password |}.

(** check_jwt.ts, lines 354-385, with the external calls as parameters. *)
Section Build.
Variable Witness : Type.
Variable BigInt : jsstring -> result Z.
Variable sha256 : bytes -> bytes.
Variable getVerificationKey : result bytes.
Variable noir_execute : ProverData -> result Witness.
Variable generateProof : Witness -> result BackendProof.ProofData.

Definition build_proof_transaction (identity password tx_hash : jsstring)
    (blob_index tx_blob_count : Z) : result ProofTx.ProofTransaction :=
  vk <- getVerificationKey ;;
  let hashed_password_bytes := sha256 (stringToBytes password) in
  let id_prefix := utf8_encode (identity ++ [char_colon]) in
  let extended_id := id_prefix ++ hashed_password_bytes in
  let stored_hash := sha256 extended_id in
  inputs <- generateProverData identity hashed_password_bytes stored_hash
              tx_hash blob_index tx_blob_count ;;
  witness <- noir_execute inputs ;;
  proof <- generateProof witness ;;
  flat <- flattenFieldsAsArray BigInt (BackendProof.publicInputs proof) ;;
  let reconstructedProof := reconstructHonkProof flat (BackendProof.proof proof) in
  Ok {| ProofTx.contract_name := js "check_secret";
        ProofTx.program_id := vk;
        ProofTx.verifier := js "noir";
        ProofTx.proof := reconstructedProof |}.
End Build.
End SecretCopy.

(** The [=] padding of standard base64: up to a length multiple of 4. *)
Definition b64_padding (s : jsstring) : jsstring :=
  repeat 61 ((4 - length s mod 4) mod 4).

(** Test data for a token whose claims select the second of two keys. *)
Definition sample_claims_json : json :=
  JObject [(js "email", JString (js "a@b.c")); (js "nonce", JString (js "7"));
           (js "kid", JString (js "k2"))].

Definition kid_eq (k : jsstring) (v : option json) : bool :=
  match v with
  | Some (JString s) => if list_eq_dec Z.eq_dec k s then true else false
  | _ => false
  end.

Definition sample_keys : list Jwk.SigningKey :=
  [{| Jwk.kid := js "k1"; Jwk.n := None |};
   {| Jwk.kid := js "k2"; Jwk.n := Some (js "AQID") |}].

(** * Proofs *)

Lemma code_points_cons (c : Z) (rest : jsstring) :
  code_points (c :: rest) =
  if is_high c then
    match rest with
    | d :: rest' =>
        if is_low d then
          (65536 + (c - 55296) * 1024 + (d - 56320)) :: code_points rest'
        else 65533 :: code_points rest
    | [] => [65533]
    end
  else if is_low c then 65533 :: code_points rest
  else c :: code_points rest.
Proof. reflexivity. Qed.

(** Appending an ASCII, non-surrogate code unit commutes with the encoder. *)
Lemma code_points_snoc_ascii (s : jsstring) (a : Z) :
  0 <= a < 128 -> code_points (s ++ [a]) = code_points s ++ [a].
Proof.
  intros Ha.
  assert (Hnh : is_high a = false) by (unfold is_high; apply andb_false_iff; left; apply Z.leb_gt; lia).
  assert (Hnl : is_low a = false) by (unfold is_low; apply andb_false_iff; left; apply Z.leb_gt; lia).
  remember (length s) as n eqn:Hn.
  revert s Hn. induction n as [n IH] using lt_wf_ind. intros s Hn.
  destruct s as [|c rest].
  - simpl. rewrite Hnh, Hnl. reflexivity.
  - rewrite <- app_comm_cons, (code_points_cons c), (code_points_cons c).
    destruct (is_high c) eqn:Hc.
    + destruct rest as [|d rest'].
      * simpl. rewrite Hnl, Hnh. reflexivity.
      * rewrite <- app_comm_cons. destruct (is_low d) eqn:Hd.
        -- rewrite (IH (length rest') ltac:(simpl in *; lia) rest' eq_refl). reflexivity.
        -- rewrite app_comm_cons.
           rewrite (IH (length (d :: rest')) ltac:(simpl in *; lia) (d :: rest') eq_refl). reflexivity.
    + rewrite (IH (length rest) ltac:(simpl in *; lia) rest eq_refl).
      destruct (is_low c); reflexivity.
Qed.

Lemma utf8_encode_snoc_ascii (s : jsstring) (a : Z) :
  0 <= a < 128 -> utf8_encode (s ++ [a]) = utf8_encode s ++ [a].
Proof.
  intros Ha. unfold utf8_encode. rewrite code_points_snoc_ascii by exact Ha.
  rewrite flat_map_app. simpl. unfold utf8_of_code_point.
  destruct (a <? 128) eqn:E; [reflexivity | apply Z.ltb_ge in E; lia].
Qed.

(** *** String padding and the blob copy loop *)

Lemma padEnd_eq (s : jsstring) (n : Z) (c : Z) :
  0 <= n -> padEnd s n c = s ++ repeat c (Z.to_nat n - length s).
Proof.
  intros Hn. unfold padEnd.
  destruct (n <=? Z.of_nat (length s)) eqn:E.
  - apply Z.leb_le in E. replace (Z.to_nat n - length s)%nat with O by lia.
    rewrite app_nil_r. reflexivity.
  - apply Z.leb_gt in E. f_equal. f_equal. lia.
Qed.

Lemma js_array_set_middle (pre rest : list Z) (r x : Z) :
  js_array_set (pre ++ r :: rest) (length pre) x = pre ++ x :: rest.
Proof.
  unfold js_array_set.
  replace (Nat.ltb (length pre) (length (pre ++ r :: rest))) with true
    by (symmetry; apply Nat.ltb_lt; rewrite length_app; simpl; lia).
  rewrite firstn_app, Nat.sub_diag, firstn_all. simpl firstn. rewrite app_nil_r.
  f_equal. f_equal.
  induction pre as [|p pre IH]; [reflexivity|]. simpl. exact IH.
Qed.

Lemma copy_loop_spec (src pre rest : list Z) :
  (length src <= length rest)%nat ->
  copy_loop src (length pre) (pre ++ rest) = pre ++ src ++ skipn (length src) rest.
Proof.
  revert pre rest. induction src as [|x src IH]; intros pre rest Hl.
  - reflexivity.
  - destruct rest as [|r rest]; simpl in Hl; [lia|].
    simpl. rewrite js_array_set_middle.
    replace (S (length pre)) with (length (pre ++ [x])) by (rewrite length_app; simpl; lia).
    replace (pre ++ x :: rest) with ((pre ++ [x]) ++ rest) by (rewrite <- app_assoc; reflexivity).
    rewrite IH by lia. rewrite <- app_assoc. reflexivity.
Qed.

Lemma zlen_eqb_nat {A} (l : list A) (n : nat) :
  (zlen l =? Z.of_nat n) = Nat.eqb (length l) n.
Proof.
  unfold zlen. destruct (Nat.eqb (length l) n) eqn:E.
  - apply Nat.eqb_eq in E. subst. apply Z.eqb_refl.
  - apply Nat.eqb_neq in E. apply Z.eqb_neq. lia.
Qed.

(** ** C4: the secret-check blob *)

(** C4. [build_blob identity password] returns the blob named
    ["check_secret"] whose data is
    [sha256(utf8(identity) ++ [0x3A] ++ sha256(utf8(password)))], a 32-byte
    value (SHA-256 produces 32 bytes). *)
Theorem build_blob_stored_hash (sha256 : bytes -> bytes)
  (Hsha : forall b, length (sha256 b) = 32%nat) (identity password : jsstring) :
  build_blob sha256 identity password =
    Ok {| contract_name := js "check_secret";
          data := sha256 (stringToBytes identity ++ [58]
                          ++ sha256 (stringToBytes password)) |}
  /\ length (sha256 (stringToBytes identity ++ [58]
                     ++ sha256 (stringToBytes password))) = 32%nat.
Proof.
  split; [|apply Hsha].
  unfold build_blob, stringToBytes, char_colon.
  rewrite utf8_encode_snoc_ascii by lia. rewrite <- app_assoc. reflexivity.
Qed.

Lemma build_blob_stored_hash_witness :
  build_blob (fun _ => repeat 7 32) (js "alice") (js "secret123") =
    Ok {| contract_name := js "check_secret"; data := repeat 7 32 |}
  /\ length (repeat 7 32) = 32%nat.
Proof.
  apply (build_blob_stored_hash (fun _ => repeat 7 32)).
  intros b. reflexivity.
Defined.

(** ** C1, C2, C9: assembling the HyliOutput records *)

Ltac run_assert :=
  unfold assert; repeat rewrite zlen_eqb_nat;
  repeat match goal with
  | H : length ?l = ?n |- context [Nat.eqb (length ?l) ?n] =>
      rewrite H, Nat.eqb_refl
  end; cbn [bind].

(** The JWT assembler refuses a stored hash that fills its 512-byte
    capacity exactly: its guard demands exactly [blob_len = 306] bytes. *)
Lemma generateHyli_rejects_full_capacity :
  CheckJwt.generateHyli (js "alice") (repeat 0 512) (js "ab") 0 1 =
    Err (Error "Blob length is ${stored_hash.length} not ${blob_len} bytes").
Proof. vm_compute. reflexivity. Qed.

(** C1 (as amended). Secret-check variant (capacity 32): a stored hash
    longer than 32 bytes makes assembly throw an [Error]; a 32-byte stored
    hash together with a 32-byte hashed password is accepted and becomes the
    blob unpadded. JWT variant (capacity 512): assembly throws an [Error]
    unless the stored hash has exactly [blob_len = 306] bytes (so also for
    512 bytes and for every length above 512); a 306-byte stored hash is
    accepted and zero-padded to 512 bytes. *)
Theorem record_assembly_capacity :
  (forall id pwd sh tx bi cnt, (32 < length sh)%nat ->
     exists msg, CheckSecret.generateProverData id pwd sh tx bi cnt = Err (Error msg)) /\
  (forall id pwd sh tx bi cnt, length pwd = 32%nat -> length sh = 32%nat ->
     exists r, CheckSecret.generateProverData id pwd sh tx bi cnt = Ok r /\
       CheckSecret.blob_capacity r = 32 /\ CheckSecret.blob_len r = 32 /\
       CheckSecret.blob r = sh) /\
  (forall id sh tx bi cnt, length sh <> 306%nat ->
     exists msg, CheckJwt.generateHyli id sh tx bi cnt = Err (Error msg)) /\
  (forall id sh tx bi cnt, length sh = 306%nat ->
     exists r, CheckJwt.generateHyli id sh tx bi cnt = Ok r /\
       CheckJwt.blob_capacity r = 512 /\ CheckJwt.blob_len r = 306 /\
       CheckJwt.blob r = sh ++ repeat 0 206).
Proof.
  split; [|split; [|split]].
  - intros id pwd sh tx bi cnt Hl. unfold CheckSecret.generateProverData.
    unfold assert. destruct (zlen pwd =? 32); simpl bind; [|eexists; reflexivity].
    replace (zlen sh =? 32) with false
      by (symmetry; apply Z.eqb_neq; unfold zlen; lia).
    eexists; reflexivity.
  - intros id pwd sh tx bi cnt Hp Hs. unfold CheckSecret.generateProverData.
    change 32 with (Z.of_nat 32). run_assert.
    eexists; repeat split; reflexivity.
  - intros id sh tx bi cnt Hl. unfold CheckJwt.generateHyli, assert.
    replace (zlen sh =? 306) with false
      by (symmetry; apply Z.eqb_neq; unfold zlen; lia).
    eexists; reflexivity.
  - intros id sh tx bi cnt Hl. unfold CheckJwt.generateHyli.
    change 306 with (Z.of_nat 306). run_assert.
    eexists; repeat split.
    pose proof (copy_loop_spec sh [] (repeat 0 512)) as Hc.
    rewrite !app_nil_l in Hc. change (length (@nil Z)) with 0%nat in Hc.
    rewrite Hc by (rewrite repeat_length; lia).
    rewrite Hl. reflexivity.
Qed.

Lemma record_assembly_capacity_witness :
  (exists msg, CheckSecret.generateProverData (js "alice") (repeat 1 32)
                 (repeat 2 33) (js "ab") 0 1 = Err (Error msg)) /\
  (exists r, CheckJwt.generateHyli (js "alice") (repeat 3 306) (js "ab") 0 1 = Ok r /\
     CheckJwt.blob_capacity r = 512 /\ CheckJwt.blob_len r = 306 /\
     CheckJwt.blob r = repeat 3 306 ++ repeat 0 206).
Proof.
  split.
  - apply (proj1 record_assembly_capacity). rewrite repeat_length. lia.
  - apply (proj2 (proj2 (proj2 record_assembly_capacity))).
    apply repeat_length.
Defined.

(** The identity of the assembled record is padded with the character
    ["0"] (code 48), not with zero bytes: assembling for identity ["alice"]
    leaves code 48 right after the five characters counted by
    [identity_len]. *)
Lemma generateProverData_pads_with_char_0 :
  exists r, CheckSecret.generateProverData (js "alice") (repeat 1 32)
              (repeat 2 32) (js "ab") 0 1 = Ok r /\
    CheckSecret.identity_len r = 5 /\ nth 5 (CheckSecret.identity r) 0 = 48.
Proof. eexists. split; [vm_compute; reflexivity | split; vm_compute; reflexivity]. Qed.

(** C2 (as amended). In every record the two assemblers produce:
    [identity_len] is the identity's length in UTF-16 code units and
    [identity] is the identity followed by characters ["0"] (code 48) up to
    256 code units; [blob_contract_name_len] is the length of the contract
    name (12 for ["check_secret"], 9 for ["check_jwt"]) and
    [blob_contract_name] is the name followed by ["0"] characters up to 256;
    [tx_hash] is the transaction hash followed by ["0"] characters up to 64;
    [blob_len] is the length of the stored hash. The secret-check blob is
    the stored hash itself; the JWT blob is the stored hash followed by
    zero bytes. ([tx_hash_len] of the secret-check record is not covered.) *)
Theorem record_length_fields :
  (forall id pwd sh tx bi cnt r,
     CheckSecret.generateProverData id pwd sh tx bi cnt = Ok r ->
     CheckSecret.identity_len r = zlen id /\
     CheckSecret.identity r = id ++ repeat char_0 (256 - length id) /\
     CheckSecret.blob_contract_name_len r = 12 /\
     CheckSecret.blob_contract_name r = js "check_secret" ++ repeat char_0 244 /\
     CheckSecret.tx_hash r = tx ++ repeat char_0 (64 - length tx) /\
     CheckSecret.blob_len r = zlen sh /\
     CheckSecret.blob r = sh) /\
  (forall id sh tx bi cnt r,
     CheckJwt.generateHyli id sh tx bi cnt = Ok r ->
     CheckJwt.identity_len r = zlen id /\
     CheckJwt.identity r = id ++ repeat char_0 (256 - length id) /\
     CheckJwt.blob_contract_name_len r = 9 /\
     CheckJwt.blob_contract_name r = jwt_contract_name ++ repeat char_0 247 /\
     CheckJwt.tx_hash r = tx ++ repeat char_0 (64 - length tx) /\
     CheckJwt.blob_len r = zlen sh /\
     CheckJwt.blob r = sh ++ repeat 0 (512 - length sh)).
Proof.
  split.
  - intros id pwd sh tx bi cnt r H. unfold CheckSecret.generateProverData, assert in H.
    destruct (zlen pwd =? 32); cbn [bind] in H; [|discriminate].
    destruct (zlen sh =? 32) eqn:Hs; cbn [bind] in H; [|discriminate].
    apply Z.eqb_eq in Hs. injection H as <-. cbn.
    rewrite !padEnd_eq by lia. repeat split; try reflexivity; congruence.
  - intros id sh tx bi cnt r H. unfold CheckJwt.generateHyli, assert in H.
    destruct (zlen sh =? 306) eqn:Hs; cbn [bind] in H; [|discriminate].
    apply Z.eqb_eq in Hs. unfold zlen in Hs.
    remember (repeat 0 512) as z eqn:Hz.
    injection H as <-. subst z. cbn [CheckJwt.identity_len CheckJwt.identity
      CheckJwt.blob_contract_name_len CheckJwt.blob_contract_name
      CheckJwt.tx_hash CheckJwt.blob_len CheckJwt.blob].
    rewrite !padEnd_eq by lia.
    pose proof (copy_loop_spec sh [] (repeat 0 512)) as Hc.
    rewrite !app_nil_l in Hc. change (length (@nil Z)) with 0%nat in Hc.
    rewrite Hc by (rewrite repeat_length; lia).
    repeat split; try reflexivity.
    + unfold zlen. lia.
    + f_equal. replace (length sh) with 306%nat by lia.
      replace (512 - 306)%nat with 206%nat by reflexivity.
      reflexivity.
Qed.

(** C9. An identity longer than 256 code units is accepted by both
    assemblers (given well-formed hashes): [padEnd] leaves it as it is, so
    the record carries the identity unchanged and [identity_len] is its full
    length. *)
Theorem long_identity_unpadded (id pwd sh sh' tx : list Z) (bi cnt : Z)
  (Hid : (256 < length id)%nat) (Hpwd : length pwd = 32%nat)
  (Hsh : length sh = 32%nat) (Hsh' : length sh' = 306%nat) :
  (exists r, CheckSecret.generateProverData id pwd sh tx bi cnt = Ok r /\
     CheckSecret.identity r = id /\ CheckSecret.identity_len r = zlen id) /\
  (exists r, CheckJwt.generateHyli id sh' tx bi cnt = Ok r /\
     CheckJwt.identity r = id /\ CheckJwt.identity_len r = zlen id).
Proof.
  assert (Hpad : padEnd id 256 char_0 = id).
  { unfold padEnd. replace (256 <=? Z.of_nat (length id)) with true
      by (symmetry; apply Z.leb_le; lia). reflexivity. }
  split.
  - unfold CheckSecret.generateProverData.
    change 32 with (Z.of_nat 32). run_assert.
    eexists; repeat split. cbn. exact Hpad.
  - unfold CheckJwt.generateHyli.
    change 306 with (Z.of_nat 306). run_assert.
    eexists; repeat split. cbn. exact Hpad.
Qed.

Lemma long_identity_unpadded_witness :
  (exists r, CheckSecret.generateProverData (repeat 97 257) (repeat 1 32)
               (repeat 2 32) (js "ab") 0 1 = Ok r /\
     CheckSecret.identity r = repeat 97 257 /\
     CheckSecret.identity_len r = zlen (repeat 97 257)) /\
  (exists r, CheckJwt.generateHyli (repeat 97 257) (repeat 3 306) (js "ab") 0 1 = Ok r /\
     CheckJwt.identity r = repeat 97 257 /\
     CheckJwt.identity_len r = zlen (repeat 97 257)).
Proof.
  apply long_identity_unpadded; rewrite repeat_length; lia.
Defined.

(** ** C6: public inputs as fixed-width big-endian bytes *)

Lemma padStart_eq (s : jsstring) (n : nat) (c : Z) :
  (length s <= n)%nat -> padStart s (Z.of_nat n) c = repeat c (n - length s) ++ s.
Proof.
  intros Hl. unfold padStart.
  destruct (Z.of_nat n <=? Z.of_nat (length s)) eqn:E.
  - apply Z.leb_le in E. replace (n - length s)%nat with O by lia. reflexivity.
  - f_equal. f_equal. lia.
Qed.

Lemma radix16_digits_length (n : nat) (v : Z) : length (radix16_digits n v) = n.
Proof. unfold radix16_digits. rewrite length_map, length_seq. reflexivity. Qed.

Lemma hex_digit_count_bound (v : Z) :
  0 <= v -> v < 16 ^ Z.of_nat (hex_digit_count v).
Proof.
  intros Hv. unfold hex_digit_count.
  destruct (v =? 0) eqn:E.
  - apply Z.eqb_eq in E. subst. simpl. lia.
  - apply Z.eqb_neq in E.
    destruct (Z.log2_spec v) as [_ Hlt]; [lia|].
    pose proof (Z.log2_nonneg v) as Hl0.
    replace (16 ^ Z.of_nat (S (Z.to_nat (Z.log2 v / 4))))
      with (2 ^ (4 * (Z.log2 v / 4 + 1))).
    + eapply Z.lt_le_trans; [exact Hlt|]. apply Z.pow_le_mono_r; [lia|]. Z.div_mod_to_equations. lia.
    + rewrite Z.pow_mul_r by (Z.div_mod_to_equations; lia).
      rewrite Nat2Z.inj_succ, Z2Nat.id by (Z.div_mod_to_equations; lia).
      f_equal.
Qed.

Lemma hex_digit_count_le_64 (v : Z) :
  0 <= v < 2 ^ 256 -> (hex_digit_count v <= 64)%nat.
Proof.
  intros Hv. unfold hex_digit_count.
  destruct (v =? 0) eqn:E; [lia|]. apply Z.eqb_neq in E.
  assert (Z.log2 v < 256).
  { apply (proj1 (Z.log2_lt_pow2 v 256 ltac:(lia))). lia. }
  pose proof (Z.log2_nonneg v).
  assert (Z.log2 v / 4 < 64) by (Z.div_mod_to_equations; lia). lia.
Qed.

Lemma seq_offset (m k : nat) : seq m k = map (Nat.add m) (seq 0 k).
Proof.
  induction k as [|k IH]; [reflexivity|].
  rewrite !seq_S, map_app, <- IH. reflexivity.
Qed.

(** Leading digits of a value below [16^k] are the character ["0"]. *)
Lemma radix16_digits_pad (m k : nat) (v : Z) :
  0 <= v < 16 ^ Z.of_nat k ->
  radix16_digits (m + k) v = repeat char_0 m ++ radix16_digits k v.
Proof.
  intros Hv. unfold radix16_digits. rewrite seq_app, map_app. f_equal.
  - replace (repeat char_0 m) with (map (fun _ : nat => char_0) (seq 0 m))
      by (rewrite map_const, length_seq; reflexivity).
    apply map_ext_in. intros i Hi. apply in_seq in Hi.
    rewrite Z.div_small.
    + reflexivity.
    + split; [lia|]. eapply Z.lt_le_trans; [apply Hv|].
      apply Z.pow_le_mono_r; lia.
  - rewrite seq_offset, map_map.
    apply map_ext_in. intros i Hi. apply in_seq in Hi.
    replace (m + k - 1 - (0 + m + i))%nat with (k - 1 - i)%nat by lia. reflexivity.
Qed.

(** The sanitised hex string of a value below [2^256] is its 64 radix-16
    digits. *)
Lemma sanitised_hex (v : Z) :
  0 <= v < 2 ^ 256 ->
  padStart (bigint_toString16 v) 64 char_0 = radix16_digits 64 v.
Proof.
  intros Hv. unfold bigint_toString16.
  replace (v <? 0) with false by (symmetry; apply Z.ltb_ge; lia).
  pose proof (hex_digit_count_le_64 v Hv) as Hc.
  change 64 with (Z.of_nat 64).
  rewrite padStart_eq by (rewrite radix16_digits_length; exact Hc).
  rewrite radix16_digits_length.
  replace 64%nat with ((64 - hex_digit_count v) + hex_digit_count v)%nat at 2 by lia.
  rewrite radix16_digits_pad; [reflexivity|].
  split; [lia|]. apply hex_digit_count_bound. lia.
Qed.

Lemma slice2_radix16 (v : Z) (i : nat) :
  (i < 32)%nat ->
  slice2 (radix16_digits 64 v) (2 * i) =
    [hex_char ((v / 16 ^ Z.of_nat (63 - 2 * i)) mod 16);
     hex_char ((v / 16 ^ Z.of_nat (62 - 2 * i)) mod 16)].
Proof.
  intros Hi. unfold slice2, radix16_digits.
  rewrite skipn_map, skipn_seq.
  replace (64 - 2 * i)%nat with (S (S (62 - 2 * i))) by lia.
  cbn [seq map firstn].
  replace (64 - 1 - (0 + 2 * i))%nat with (63 - 2 * i)%nat by lia.
  replace (64 - 1 - S (0 + 2 * i))%nat with (62 - 2 * i)%nat by lia.
  reflexivity.
Qed.

Ltac hex_digit_cases d :=
  let H := fresh in
  assert (H : d = 0 \/ d = 1 \/ d = 2 \/ d = 3 \/ d = 4 \/ d = 5 \/ d = 6 \/
              d = 7 \/ d = 8 \/ d = 9 \/ d = 10 \/ d = 11 \/ d = 12 \/
              d = 13 \/ d = 14 \/ d = 15) by lia;
  repeat destruct H as [H|H]; subst d.

Lemma parseInt16_two_digits (d1 d2 : Z) :
  0 <= d1 < 16 -> 0 <= d2 < 16 ->
  parseInt16 [hex_char d1; hex_char d2] = Some (16 * d1 + d2).
Proof.
  intros H1 H2. hex_digit_cases d1; hex_digit_cases d2; vm_compute; reflexivity.
Qed.

Lemma two_hex_digits_byte (v : Z) (k : nat) :
  0 <= v ->
  16 * ((v / 16 ^ Z.of_nat (S (2 * k))) mod 16) + (v / 16 ^ Z.of_nat (2 * k)) mod 16
  = (v / 256 ^ Z.of_nat k) mod 256.
Proof.
  intros Hv.
  assert (Hp : 16 ^ Z.of_nat (2 * k) = 256 ^ Z.of_nat k).
  { rewrite Nat2Z.inj_mul, Z.pow_mul_r by lia. reflexivity. }
  assert (Hq : 16 ^ Z.of_nat (S (2 * k)) = 256 ^ Z.of_nat k * 16).
  { rewrite Nat2Z.inj_succ, Z.pow_succ_r by lia. rewrite Hp. lia. }
  rewrite Hq, Hp, <- Z.div_div by (try apply Z.pow_nonzero; lia).
  assert (0 < 256 ^ Z.of_nat k) by (apply Z.pow_pos_nonneg; lia).
  set (w := v / 256 ^ Z.of_nat k).
  Z.div_mod_to_equations. lia.
Qed.

Lemma fold_typed_set (f : nat -> Z) (k n : nat) :
  (k <= n)%nat ->
  fold_left (fun u8 i => typed_set u8 i (f i)) (seq 0 k) (repeat 0 n)
  = map f (seq 0 k) ++ repeat 0 (n - k).
Proof.
  induction k as [|k IH]; intros Hk.
  - simpl. rewrite Nat.sub_0_r. reflexivity.
  - rewrite seq_S, fold_left_app, IH by lia. simpl fold_left.
    replace (n - k)%nat with (S (n - S k)) by lia.
    unfold typed_set.
    rewrite length_app, length_map, length_seq, repeat_length.
    rewrite Nat.add_0_l.
    destruct (Nat.ltb_spec k (k + S (n - S k))); [|lia].
    rewrite firstn_app, length_map, length_seq, Nat.sub_diag, firstn_all2
      by (rewrite length_map, length_seq; lia).
    rewrite skipn_app, length_map, length_seq, skipn_all2
      by (rewrite length_map, length_seq; lia).
    replace (S k - k)%nat with 1%nat by lia.
    rewrite map_app. simpl. rewrite <- !app_assoc. reflexivity.
Qed.

(** A field string whose [BigInt] value lies in [[0, 2^256)] becomes its
    32-byte big-endian encoding. *)
Lemma hexToUint8Array_be32 (BigInt : jsstring -> result Z) (hex : jsstring) (v : Z) :
  BigInt hex = Ok v -> 0 <= v < 2 ^ 256 ->
  hexToUint8Array BigInt hex = Ok (be32 v).
Proof.
  intros Hb Hv. unfold hexToUint8Array. rewrite Hb. cbn [bind].
  rewrite (sanitised_hex v Hv), radix16_digits_length.
  change ((64 + 1) / 2)%nat with 32%nat. change (64 / 2)%nat with 32%nat.
  rewrite fold_typed_set by lia. rewrite Nat.sub_diag, app_nil_r.
  f_equal. unfold be32. apply map_ext_in. intros i Hi.
  apply in_seq in Hi.
  rewrite slice2_radix16 by lia.
  assert (Hpos : 0 <= v) by lia.
  rewrite parseInt16_two_digits by (split; [apply Z.mod_pos_bound | apply Z.mod_pos_bound]; lia).
  unfold ToUint8.
  replace (63 - 2 * i)%nat with (S (2 * (31 - i))) by lia.
  replace (62 - 2 * i)%nat with (2 * (31 - i))%nat by lia.
  rewrite (two_hex_digits_byte v (31 - i) Hpos).
  rewrite Z.mod_mod by lia.
  rewrite Nat2Z.inj_sub by lia. reflexivity.
Qed.

Lemma map_result_hexToUint8Array (BigInt : jsstring -> result Z)
  (fields : list jsstring) (vs : list Z) :
  Forall2 (field_in_range BigInt) fields vs ->
  map_result (hexToUint8Array BigInt) fields = Ok (map be32 vs).
Proof.
  induction 1 as [|s v fields vs [Hb Hv] _ IH]; [reflexivity|].
  simpl. rewrite (hexToUint8Array_be32 BigInt s v Hb Hv). cbn [bind].
  rewrite IH. reflexivity.
Qed.

Lemma fold_left_length_sum (arrays : list (list Z)) (acc : nat) :
  fold_left (fun acc val => (acc + length val)%nat) arrays acc
  = (acc + list_sum (map (@length Z) arrays))%nat.
Proof.
  revert acc. induction arrays as [|a rest IH]; intros acc; simpl.
  - lia.
  - rewrite IH. lia.
Qed.

Lemma flatten_loop_concat (arrays : list (list Z)) (pre : list Z) :
  flatten_loop arrays (pre ++ repeat 0 (list_sum (map (@length Z) arrays))) (length pre)
  = Ok (pre ++ concat arrays).
Proof.
  revert pre. induction arrays as [|a rest IH]; intros pre.
  - simpl. reflexivity.
  - cbn [flatten_loop map concat].
    replace (list_sum (length a :: map (@length Z) rest))
      with (length a + list_sum (map (@length Z) rest))%nat by reflexivity.
    unfold typed_set_range.
    rewrite length_app, repeat_length.
    destruct (Nat.ltb_spec (length pre + (length a + list_sum (map (@length Z) rest)))
                           (length pre + length a)); [lia|].
    cbn [bind].
    rewrite firstn_app, Nat.sub_diag, firstn_all, app_nil_r.
    rewrite repeat_app, app_assoc.
    rewrite skipn_app, skipn_all2 by lia.
    replace (length pre + length a - length pre)%nat with (length a) by lia.
    rewrite skipn_app, skipn_all2 by (rewrite repeat_length; lia).
    rewrite repeat_length, Nat.sub_diag, skipn_O, app_nil_l.
    rewrite <- length_app, IH, <- app_assoc. reflexivity.
Qed.

Lemma flattenUint8Arrays_concat (arrays : list (list Z)) :
  flattenUint8Arrays arrays = Ok (concat arrays).
Proof.
  unfold flattenUint8Arrays. rewrite fold_left_length_sum.
  exact (flatten_loop_concat arrays []).
Qed.

Lemma bind_Ok {A B} (m : result A) (k : A -> result B) (b : B) :
  bind m k = Ok b -> exists a, m = Ok a /\ k a = Ok b.
Proof. destruct m as [a|e]; simpl; [eauto|discriminate]. Qed.

Ltac split_binds :=
  repeat match goal with
  | H : bind _ _ = Ok _ |- _ =>
      let a := fresh "a" in let Ha := fresh "Ha" in
      apply bind_Ok in H; destruct H as [a [Ha H]]
  end.

Lemma flattenFieldsAsArray_be32 (BigInt : jsstring -> result Z)
  (fields : list jsstring) (vs : list Z) :
  Forall2 (field_in_range BigInt) fields vs ->
  flattenFieldsAsArray BigInt fields = Ok (concat (map be32 vs)).
Proof.
  intros H. unfold flattenFieldsAsArray.
  rewrite (map_result_hexToUint8Array BigInt fields vs H). cbn [bind].
  apply flattenUint8Arrays_concat.
Qed.

(** C6. For field strings denoting integers in [[0, 2^256)],
    [flattenFieldsAsArray] returns the concatenation of their 32-byte
    big-endian encodings, in list order; and every proof transaction that
    [build_proof_transaction] returns (in both variants) has as proof bytes
    that concatenation for the public inputs the backend returned, followed
    by the raw backend proof bytes. *)
Theorem proof_bytes_layout :
  (forall (BigInt : jsstring -> result Z) (fields : list jsstring) (vs : list Z),
      Forall2 (field_in_range BigInt) fields vs ->
      flattenFieldsAsArray BigInt fields = Ok (concat (map be32 vs)))
  /\ (forall (Witness : Type) BigInt sha256 getVerificationKey noir_execute
             (generateProof : Witness -> result BackendProof.ProofData)
             identity password tx_hash blob_index tx_blob_count tx,
        CheckSecretProof.build_proof_transaction Witness BigInt sha256
          getVerificationKey noir_execute generateProof
          identity password tx_hash blob_index tx_blob_count = Ok tx ->
        exists w pd, generateProof w = Ok pd /\
          forall vs, Forall2 (field_in_range BigInt) (BackendProof.publicInputs pd) vs ->
            ProofTx.proof tx = concat (map be32 vs) ++ BackendProof.proof pd)
  /\ (forall (JsonWebKey JwtInputs Witness : Type) BigInt generateInputs
             getVerificationKey noir_execute
             (generateProof : Witness -> result BackendProof.ProofData)
             identity stored_hash tx_hash blob_index tx_blob_count idToken jwtPubkey
             jwtInputsOverride tx,
        CheckJwtProof.build_proof_transaction JsonWebKey JwtInputs Witness BigInt
          generateInputs getVerificationKey noir_execute generateProof
          identity stored_hash tx_hash blob_index tx_blob_count idToken jwtPubkey
          jwtInputsOverride = Ok tx ->
        exists w pd, generateProof w = Ok pd /\
          forall vs, Forall2 (field_in_range BigInt) (BackendProof.publicInputs pd) vs ->
            ProofTx.proof tx = concat (map be32 vs) ++ BackendProof.proof pd).
Proof.
  split; [exact flattenFieldsAsArray_be32|split].
  - intros Witness BigInt sha256 gvk exec gp identity password tx_hash bi cnt tx H.
    unfold CheckSecretProof.build_proof_transaction in H. split_binds.
    injection H as <-.
    exists a1, a2. split; [exact Ha2|].
    intros vs Hvs. rewrite (flattenFieldsAsArray_be32 BigInt _ vs Hvs) in Ha3.
    injection Ha3 as <-. reflexivity.
  - intros JsonWebKey JwtInputs Witness BigInt gi gvk exec gp identity sh tx_hash bi cnt
      idToken pk ovr tx H.
    unfold CheckJwtProof.build_proof_transaction in H. split_binds.
    injection H as <-.
    exists a2, a3. split; [exact Ha3|].
    intros vs Hvs. rewrite (flattenFieldsAsArray_be32 BigInt _ vs Hvs) in Ha4.
    injection Ha4 as <-. reflexivity.
Qed.

Lemma proof_bytes_layout_witness :
  Forall2 (field_in_range (fun _ => Ok 258)) [js "0x102"; js "258"] [258; 258] /\
  flattenFieldsAsArray (fun _ => Ok 258) [js "0x102"; js "258"]
    = Ok (concat (map be32 [258; 258])).
Proof.
  assert (Hf : Forall2 (field_in_range (fun _ => Ok 258)) [js "0x102"; js "258"] [258; 258]).
  { repeat constructor; lia. }
  split; [exact Hf|].
  exact (proj1 proof_bytes_layout _ _ _ Hf).
Defined.

(** ** C5: contract registration *)

(** A lookup failing with an error other than not found still registers
    the contract, and [register_contract] resolves. *)
Lemma register_contract_on_server_error :
  let st := {| get_outcome := fun _ => Err ServerError; gets := 0;
               register_outcome := Ok tt; registered := [] |} in
  fst (register_contract_secret (Ok (js "vk")) st) = Ok tt /\
  registered (snd (register_contract_secret (Ok (js "vk")) st))
    = [registration_request (js "check_secret") (js "vk")] /\
  fst (register_contract_jwt (Ok (js "vk")) st) = Ok (Some (js "vk")) /\
  registered (snd (register_contract_jwt (Ok (js "vk")) st))
    = [registration_request jwt_contract_name (js "vk")].
Proof. repeat split. Qed.

(** C5. In both variants [register_contract] registers whenever
    [getContract] fails, whatever the error: the result is then the outcome
    of [registerContract] (the program id in the JWT variant), and exactly
    one request is logged. When [getContract] succeeds nothing is
    registered. Two calls against a ledger that answers NotFoundError first
    and succeeds next make exactly one [registerContract] call. *)
Theorem register_contract_catch_all :
  (forall (vk : bytes) (st : Node) (e : js_error),
      get_outcome st (gets st) = Err e ->
      fst (register_contract_secret (Ok vk) st) = register_outcome st /\
      registered (snd (register_contract_secret (Ok vk) st))
        = registered st ++ [registration_request (js "check_secret") vk] /\
      fst (register_contract_jwt (Ok vk) st)
        = bind (register_outcome st) (fun _ => Ok (Some vk)) /\
      registered (snd (register_contract_jwt (Ok vk) st))
        = registered st ++ [registration_request jwt_contract_name vk])
  /\ (forall (gvk : result bytes) (st : Node),
      get_outcome st (gets st) = Ok tt ->
      fst (register_contract_secret gvk st) = Ok tt /\
      registered (snd (register_contract_secret gvk st)) = registered st /\
      fst (register_contract_jwt gvk st) = Ok None /\
      registered (snd (register_contract_jwt gvk st)) = registered st)
  /\ (forall (vk : bytes) (st : Node),
      gets st = 0%nat -> get_outcome st 0 = Err NotFoundError ->
      get_outcome st 1 = Ok tt -> register_outcome st = Ok tt ->
      length (registered (snd (register_contract_secret (Ok vk)
                                 (snd (register_contract_secret (Ok vk) st)))))
        = S (length (registered st)) /\
      length (registered (snd (register_contract_jwt (Ok vk)
                                 (snd (register_contract_jwt (Ok vk) st)))))
        = S (length (registered st))).
Proof.
  split; [|split].
  - intros vk st e He.
    unfold register_contract_secret, register_contract_jwt, ncatch, nbind, nret, nlift,
      getContract, registerContract.
    cbn [fst snd]. rewrite He. cbn.
    destruct (register_outcome st); repeat split; reflexivity.
  - intros gvk st Hok.
    unfold register_contract_secret, register_contract_jwt, ncatch, nbind, nret,
      getContract.
    rewrite Hok. repeat split; reflexivity.
  - intros vk st H0 Hnf Hok Hreg.
    unfold register_contract_secret, register_contract_jwt, ncatch, nbind, nret, nlift,
      getContract, registerContract.
    cbn [fst snd get_outcome gets register_outcome registered].
    rewrite H0, Hnf, Hreg. cbn [fst snd get_outcome gets register_outcome registered].
    rewrite Hok. cbn. rewrite !length_app. simpl. split; lia.
Qed.

Lemma register_contract_catch_all_witness :
  let st := {| get_outcome := fun k => if Nat.eqb k 0 then Err NotFoundError else Ok tt;
               gets := 0; register_outcome := Ok tt; registered := [] |} in
  length (registered (snd (register_contract_secret (Ok (js "vk"))
                             (snd (register_contract_secret (Ok (js "vk")) st))))) = 1%nat /\
  length (registered (snd (register_contract_jwt (Ok (js "vk"))
                             (snd (register_contract_jwt (Ok (js "vk")) st))))) = 1%nat.
Proof.
  intros st.
  exact (proj2 (proj2 register_contract_catch_all) (js "vk") st
           eq_refl eq_refl eq_refl eq_refl).
Defined.

(** ** Base64url round trip *)

Lemma b64url_char_check_all :
  forallb (fun n => b64url_char_check (Z.of_nat n)) (seq 0 64) = true.
Proof. vm_compute. reflexivity. Qed.

Lemma b64url_char_ok (x : Z) :
  0 <= x < 64 ->
  b64_value (url_fix (spec_b64url_char x)) = Some x /\
  is_ascii_whitespace (url_fix (spec_b64url_char x)) = false /\
  (url_fix (spec_b64url_char x) =? 61) = false.
Proof.
  intros Hx.
  pose proof (proj1 (forallb_forall _ _) b64url_char_check_all (Z.to_nat x)) as H.
  assert (Hin : In (Z.to_nat x) (seq 0 64)) by (apply in_seq; lia).
  specialize (H Hin). cbv beta in H.
  rewrite Z2Nat.id in H by lia.
  unfold b64url_char_check in H.
  destruct (b64_value (url_fix (spec_b64url_char x))) as [y|]; [|discriminate].
  apply andb_prop in H as [H H3]. apply andb_prop in H as [H1 H2].
  apply Z.eqb_eq in H1. subst y.
  apply negb_true_iff in H2, H3. auto.
Qed.

Lemma b64url_to_b64_map (xs : list Z) :
  b64url_to_b64 (map spec_b64url_char xs) = map (fun x => url_fix (spec_b64url_char x)) xs.
Proof. unfold b64url_to_b64. rewrite !map_map. reflexivity. Qed.

Lemma b64_values_map (xs : list Z) :
  Forall (fun x => 0 <= x < 64) xs ->
  b64_values (map (fun x => url_fix (spec_b64url_char x)) xs) = Some xs.
Proof.
  induction 1 as [|x xs Hx _ IH]; [reflexivity|].
  simpl. rewrite (proj1 (b64url_char_ok x Hx)), IH. reflexivity.
Qed.

Lemma filter_no_whitespace (xs : list Z) :
  Forall (fun x => 0 <= x < 64) xs ->
  filter (fun c => negb (is_ascii_whitespace c)) (map (fun x => url_fix (spec_b64url_char x)) xs)
  = map (fun x => url_fix (spec_b64url_char x)) xs.
Proof.
  induction 1 as [|x xs Hx _ IH]; [reflexivity|].
  simpl. rewrite (proj1 (proj2 (b64url_char_ok x Hx))), IH. reflexivity.
Qed.

Lemma strip_padding_no_eq (data : jsstring) :
  Forall (fun c => (c =? 61) = false) data -> strip_padding data = data.
Proof.
  intros H. unfold strip_padding.
  destruct (Nat.eqb (length data mod 4) 0); [|reflexivity].
  assert (Hr : Forall (fun c => (c =? 61) = false) (rev data)) by (apply Forall_rev; exact H).
  destruct (rev data) as [|a [|b r]]; [reflexivity| |].
  - inversion Hr as [|? ? Ha]; subst. rewrite Ha. reflexivity.
  - inversion Hr as [|? ? Ha]; subst. rewrite Ha. reflexivity.
Qed.

Lemma no_eq_map (xs : list Z) :
  Forall (fun x => 0 <= x < 64) xs ->
  Forall (fun c => (c =? 61) = false) (map (fun x => url_fix (spec_b64url_char x)) xs).
Proof.
  induction 1 as [|x xs Hx _ IH]; constructor; [|exact IH].
  exact (proj2 (proj2 (b64url_char_ok x Hx))).
Qed.

Lemma buffer_three_bytes (a b c : Z) :
  is_byte a -> is_byte b -> is_byte c ->
  (((0 * 64 + a / 4) * 64 + ((a mod 4) * 16 + b / 16)) * 64 + ((b mod 16) * 4 + c / 64)) * 64
    + c mod 64 = a * 65536 + b * 256 + c.
Proof. unfold is_byte. intros. Z.div_mod_to_equations. lia. Qed.

Lemma bytes_of_buffer (a b c : Z) :
  is_byte a -> is_byte b -> is_byte c ->
  [(a * 65536 + b * 256 + c) / 65536; ((a * 65536 + b * 256 + c) / 256) mod 256;
   (a * 65536 + b * 256 + c) mod 256] = [a; b; c].
Proof.
  unfold is_byte. intros Ha Hb Hc.
  repeat f_equal; Z.div_mod_to_equations; lia.
Qed.

Lemma spec_sextets_decode (m : bytes) :
  Forall is_byte m ->
  decode_sextets (spec_sextets m) 0 0 = m /\
  Forall (fun x => 0 <= x < 64) (spec_sextets m) /\
  exists q r, length (spec_sextets m) = (4 * q + r)%nat /\ (r = 0 \/ r = 2 \/ r = 3)%nat.
Proof.
  remember (length m) as n eqn:Hn. revert m Hn.
  induction n as [n IH] using lt_wf_ind. intros m Hn Hm.
  destruct m as [|a [|b [|c rest]]].
  - split; [reflexivity|]. split; [constructor|]. exists 0%nat, 0%nat. simpl. lia.
  - inversion Hm as [|? ? Ha _]; subst. unfold is_byte in Ha.
    cbn [spec_sextets decode_sextets Nat.eqb Nat.add].
    split; [|split].
    + f_equal. Z.div_mod_to_equations. lia.
    + repeat constructor; Z.div_mod_to_equations; lia.
    + exists 0%nat, 2%nat. simpl. lia.
  - inversion Hm as [|? ? Ha Hm']; subst. inversion Hm' as [|? ? Hb _]; subst.
    unfold is_byte in Ha, Hb.
    cbn [spec_sextets decode_sextets Nat.eqb Nat.add].
    split; [|split].
    + f_equal; [|f_equal]; Z.div_mod_to_equations; lia.
    + repeat constructor; Z.div_mod_to_equations; lia.
    + exists 0%nat, 3%nat. simpl. lia.
  - inversion Hm as [|? ? Ha Hm1]; subst. inversion Hm1 as [|? ? Hb Hm2]; subst.
    inversion Hm2 as [|? ? Hc Hrest]; subst.
    destruct (IH (length rest) ltac:(simpl; lia) rest eq_refl Hrest)
      as [IHd [IHr [q [r [Hl Hr]]]]].
    cbn [spec_sextets decode_sextets Nat.eqb Nat.add].
    split; [|split].
    + rewrite (buffer_three_bytes a b c Ha Hb Hc), bytes_of_buffer by assumption.
      rewrite IHd. reflexivity.
    + unfold is_byte in Ha, Hb, Hc.
      repeat constructor; try (Z.div_mod_to_equations; lia). exact IHr.
    + exists (S q), r. simpl. lia.
Qed.

Lemma map_mod256_bytes (m : bytes) : Forall is_byte m -> map (fun c => c mod 256) m = m.
Proof.
  induction 1 as [|x m Hx _ IH]; [reflexivity|].
  simpl. rewrite IH, Z.mod_small by exact Hx. reflexivity.
Qed.

(** [b64urlToU8] decodes the unpadded base64url encoding of any bytes. *)
Lemma b64urlToU8_roundtrip (m : bytes) :
  Forall is_byte m -> b64urlToU8 (spec_b64url_encode m) = Ok m.
Proof.
  intros Hm.
  destruct (spec_sextets_decode m Hm) as [Hd [Hr [q [r [Hl Hr']]]]].
  unfold b64urlToU8, spec_b64url_encode. rewrite b64url_to_b64_map.
  unfold atob. rewrite (filter_no_whitespace _ Hr), (strip_padding_no_eq _ (no_eq_map _ Hr)).
  rewrite length_map, Hl.
  replace ((4 * q + r) mod 4)%nat with r
    by (rewrite Nat.mul_comm, Nat.add_comm, Nat.Div0.mod_add;
        symmetry; apply Nat.mod_small; lia).
  replace (Nat.eqb r 1) with false by (symmetry; apply Nat.eqb_neq; lia).
  rewrite (b64_values_map _ Hr), Hd. cbn [bind].
  rewrite map_mod256_bytes by exact Hm. reflexivity.
Qed.

Lemma Uint8Array_from_ascii (s : jsstring) :
  Forall is_ascii_unit s -> Uint8Array_from_charCodes s = s.
Proof.
  unfold Uint8Array_from_charCodes.
  induction 1 as [|c s Hc _ IH]; [reflexivity|].
  unfold is_ascii_unit in Hc.
  assert (Hnh : is_high c = false)
    by (unfold is_high; apply andb_false_iff; left; apply Z.leb_gt; lia).
  simpl string_iter. rewrite Hnh. simpl map. rewrite IH.
  rewrite Z.mod_small by lia. reflexivity.
Qed.

(** ** C3: the JWT stored hash *)

(** [new Fr] accepts the integer of the email's bytes below the field
    modulus, and throws at or above it. *)
Lemma poseidon_hash_in_field (poseidon2Hash : Z -> result bytes) (s : jsstring) :
  bytesToBigInt (utf8_encode s) < Fr_MODULUS ->
  poseidon_hash poseidon2Hash s = poseidon2Hash (bytesToBigInt (utf8_encode s)).
Proof.
  intros H. unfold poseidon_hash, new_Fr.
  replace (Fr_MODULUS - 1 <? bytesToBigInt (utf8_encode s)) with false
    by (symmetry; apply Z.ltb_ge; lia).
  reflexivity.
Qed.

Lemma build_stored_hash_at_modulus (number : Type) (Number_toString : number -> jsstring)
  (poseidon2Hash : Z -> result bytes) (email : jsstring) (nonce : number)
  (pubkey : option jsstring) :
  Fr_MODULUS <= bytesToBigInt (utf8_encode email) ->
  exists msg, build_stored_hash number Number_toString poseidon2Hash email nonce pubkey
              = Err (Error msg).
Proof.
  intros H. unfold build_stored_hash, poseidon_hash, new_Fr.
  replace (Fr_MODULUS - 1 <? bytesToBigInt (utf8_encode email)) with true
    by (symmetry; apply Z.ltb_lt; lia).
  eexists. reflexivity.
Qed.

Lemma bytesToBigInt_acc (bs : bytes) (a : Z) :
  fold_left (fun r b => Z.shiftl r 8 + b) bs a
  = a * 2 ^ (8 * Z.of_nat (length bs)) + bytesToBigInt bs.
Proof.
  unfold bytesToBigInt. revert a. induction bs as [|b bs IH]; intros a.
  - cbn. lia.
  - cbn [fold_left length]. rewrite (IH (Z.shiftl a 8 + b)), (IH (Z.shiftl 0 8 + b)).
    rewrite !Z.shiftl_mul_pow2 by lia. rewrite Nat2Z.inj_succ.
    replace (8 * Z.succ (Z.of_nat (length bs))) with (8 + 8 * Z.of_nat (length bs)) by lia.
    rewrite Z.pow_add_r by lia. ring.
Qed.

Lemma bytesToBigInt_cons (b : Z) (bs : bytes) :
  bytesToBigInt (b :: bs) = b * 2 ^ (8 * Z.of_nat (length bs)) + bytesToBigInt bs.
Proof.
  unfold bytesToBigInt at 1. cbn [fold_left]. rewrite bytesToBigInt_acc.
  rewrite Z.shiftl_0_l. reflexivity.
Qed.

Lemma bytesToBigInt_bound (bs : bytes) :
  Forall is_byte bs -> 0 <= bytesToBigInt bs < 2 ^ (8 * Z.of_nat (length bs)).
Proof.
  induction 1 as [|b bs Hb _ IH]; [cbn; lia|].
  rewrite bytesToBigInt_cons. unfold is_byte in Hb. cbn [length].
  rewrite Nat2Z.inj_succ.
  replace (8 * Z.succ (Z.of_nat (length bs))) with (8 + 8 * Z.of_nat (length bs)) by lia.
  rewrite Z.pow_add_r by lia. change (2 ^ 8) with 256.
  assert (0 < 2 ^ (8 * Z.of_nat (length bs))) by (apply Z.pow_pos_nonneg; lia).
  nia.
Qed.

Lemma code_points_range (s : jsstring) :
  (Forall is_code_unit s -> Forall (fun cp => 0 <= cp < 1114112) (code_points s)) /\
  (forall d rest, s = d :: rest -> Forall is_code_unit rest ->
     Forall (fun cp => 0 <= cp < 1114112) (code_points rest)).
Proof.
  induction s as [|c rest IH]; split.
  - intros _. constructor.
  - intros d r' E. discriminate.
  - intros H. inversion H as [|c' rest' Hc Hrest]; subst. unfold is_code_unit in Hc.
    destruct IH as [IH1 IH2]. cbn [code_points].
    destruct (is_high c) eqn:Eh.
    + destruct rest as [|d rest'].
      * repeat constructor; lia.
      * destruct (is_low d) eqn:El.
        -- inversion Hrest as [|d' r'' Hd Hr']; subst. unfold is_code_unit in Hd.
           unfold is_high in Eh. unfold is_low in El.
           apply andb_true_iff in Eh, El. destruct Eh as [Eh1 Eh2], El as [El1 El2].
           apply Z.leb_le in Eh1, Eh2, El1, El2.
           constructor; [lia|]. exact (IH2 d rest' eq_refl Hr').
        -- constructor; [lia|]. exact (IH1 Hrest).
    + destruct (is_low c); (constructor; [lia|exact (IH1 Hrest)]).
  - intros d r' E Hr. injection E as <- <-. exact (proj1 IH Hr).
Qed.

Lemma utf8_of_code_point_bytes (cp : Z) :
  0 <= cp < 1114112 -> Forall is_byte (utf8_of_code_point cp).
Proof.
  intros H. unfold utf8_of_code_point, is_byte.
  destruct (cp <? 128) eqn:E1; [apply Z.ltb_lt in E1; repeat constructor; lia|].
  apply Z.ltb_ge in E1.
  destruct (cp <? 2048) eqn:E2; [|destruct (cp <? 65536) eqn:E3];
    try apply Z.ltb_lt in E2; try apply Z.ltb_ge in E2;
    try apply Z.ltb_lt in E3; try apply Z.ltb_ge in E3;
    repeat constructor; Z.div_mod_to_equations; lia.
Qed.

Lemma utf8_encode_bytes (s : jsstring) :
  Forall is_code_unit s -> Forall is_byte (utf8_encode s).
Proof.
  intros H. unfold utf8_encode. apply Forall_flat_map.
  apply (Forall_impl _ utf8_of_code_point_bytes). exact (proj1 (code_points_range s) H).
Qed.

(** C3 (as amended). For an email whose UTF-8 bytes, read as one
    big-endian integer [v], lie below the BN254 field modulus (as do those of
    every email of at most 31 UTF-8 bytes), with [poseidon2Hash v = h], and a
    nonce whose string [`${nonce}`] is ASCII of at most 16 characters,
    [build_stored_hash] on the base64url encoding of a modulus [m] returns
    the mail hash [h] and the stored hash [h ++ [0x3A] ++ ascii(nonce) ++
    zeros up to 16 bytes ++ [0x3A] ++ reverse m]. For an email at or above
    the field modulus (as is every email of 32 or more UTF-8 bytes starting
    with a byte of at least 0x31), [new Fr] throws and so does
    [build_stored_hash]. *)
Theorem build_stored_hash_layout (number : Type) (Number_toString : number -> jsstring)
  (poseidon2Hash : Z -> result bytes) (email : jsstring) (nonce : number) :
  (forall (m h : bytes),
     bytesToBigInt (utf8_encode email) < Fr_MODULUS ->
     poseidon2Hash (bytesToBigInt (utf8_encode email)) = Ok h ->
     Forall is_ascii_unit (Number_toString nonce) ->
     (length (Number_toString nonce) <= 16)%nat ->
     Forall is_byte m ->
     build_stored_hash number Number_toString poseidon2Hash email nonce
       (Some (spec_b64url_encode m))
     = Ok {| StoredHash.mail_hash := h;
             StoredHash.stored_hash :=
               h ++ [58] ++ Number_toString nonce
                 ++ repeat 0 (16 - length (Number_toString nonce)) ++ [58] ++ rev m |}) /\
  (forall pubkey, Fr_MODULUS <= bytesToBigInt (utf8_encode email) ->
     exists msg, build_stored_hash number Number_toString poseidon2Hash email nonce pubkey
                 = Err (Error msg)) /\
  (Forall is_code_unit email -> (length (utf8_encode email) <= 31)%nat ->
     bytesToBigInt (utf8_encode email) < Fr_MODULUS) /\
  (forall b bs, Forall is_code_unit email -> utf8_encode email = b :: bs ->
     (31 <= length bs)%nat -> 49 <= b ->
     Fr_MODULUS <= bytesToBigInt (utf8_encode email)).
Proof.
  split; [|split; [|split]].
  - intros m h Hv Hh Hascii Hlen Hm.
    unfold build_stored_hash. rewrite (poseidon_hash_in_field _ _ Hv), Hh. cbn [bind].
    rewrite (Uint8Array_from_ascii _ Hascii).
    unfold new_array_fill0, zlen.
    replace (16 - Z.of_nat (length (Number_toString nonce)) <? 0) with false
      by (symmetry; apply Z.ltb_ge; lia).
    cbn [bind]. rewrite (b64urlToU8_roundtrip m Hm). cbn [bind].
    replace (Z.to_nat (16 - Z.of_nat (length (Number_toString nonce))))
      with (16 - length (Number_toString nonce))%nat by lia.
    reflexivity.
  - intros pubkey. apply build_stored_hash_at_modulus.
  - intros Hu Hl.
    destruct (bytesToBigInt_bound _ (utf8_encode_bytes _ Hu)) as [_ Hb].
    assert (Hp : 2 ^ (8 * Z.of_nat (length (utf8_encode email))) <= 2 ^ 248)
      by (apply Z.pow_le_mono_r; lia).
    assert (Hm : 2 ^ 248 < Fr_MODULUS) by (apply Z.ltb_lt; vm_compute; reflexivity).
    lia.
  - intros b bs Hu E Hl Hb.
    pose proof (utf8_encode_bytes _ Hu) as Hby. rewrite E in Hby |- *.
    inversion Hby as [|b' bs' _ Hbs]; subst.
    rewrite bytesToBigInt_cons.
    destruct (bytesToBigInt_bound _ Hbs) as [Hr _].
    assert (Hp : 2 ^ 248 <= 2 ^ (8 * Z.of_nat (length bs)))
      by (apply Z.pow_le_mono_r; lia).
    assert (Hm : Fr_MODULUS <= 49 * 2 ^ 248) by (apply Z.leb_le; vm_compute; reflexivity).
    nia.
Qed.

Lemma build_stored_hash_layout_witness :
  let v := bytesToBigInt (utf8_encode (js "alice@example.com")) in
  (v < Fr_MODULUS /\ (fun _ : Z => Ok (repeat 9 32)) v = Ok (repeat 9 32) /\
   Forall is_ascii_unit (js "12345") /\ (length (js "12345") <= 16)%nat /\
   Forall is_byte [1; 2; 3; 250]) /\
  build_stored_hash Z (fun _ => js "12345") (fun _ => Ok (repeat 9 32))
    (js "alice@example.com") 12345 (Some (spec_b64url_encode [1; 2; 3; 250]))
  = Ok {| StoredHash.mail_hash := repeat 9 32;
          StoredHash.stored_hash :=
            repeat 9 32 ++ [58] ++ js "12345"
              ++ repeat 0 (16 - length (js "12345")) ++ [58] ++ rev [1; 2; 3; 250] |}.
Proof.
  intros v.
  assert (Hv : v < Fr_MODULUS) by (apply Z.ltb_lt; vm_compute; reflexivity).
  assert (Ha : Forall is_ascii_unit (js "12345"))
    by (repeat constructor; unfold is_ascii_unit; lia).
  assert (Hm : Forall is_byte [1; 2; 3; 250]) by (repeat constructor; unfold is_byte; lia).
  split; [split; [exact Hv|split; [reflexivity|split; [exact Ha|split; [simpl; lia|exact Hm]]]]|].
  apply (proj1 (build_stored_hash_layout Z (fun _ => js "12345") (fun _ => Ok (repeat 9 32))
                  (js "alice@example.com") 12345));
    [exact Hv|reflexivity|exact Ha|simpl; lia|exact Hm].
Defined.

(** A 35-character email makes [build_stored_hash] throw: its 35 bytes,
    read as one integer, exceed the BN254 field modulus, so [new Fr] throws
    before the Poseidon2 hash is computed (whatever that hash, the nonce and
    the modulus, by [build_stored_hash_at_modulus]). *)
Lemma build_stored_hash_long_email_throws :
  build_stored_hash Z (fun _ => js "12345") (fun _ => Ok (repeat 9 32))
    (js "jonathan.longname.smith@example.com") 12345
    (Some (spec_b64url_encode [1; 2; 3]))
  = Err (Error "Value 0x${value.toString(16)} is greater or equal to field modulus.").
Proof. vm_compute. reflexivity. Qed.

(** ** C8: determinism of the stored hash *)

(** C8. [build_stored_hash] is a function of the email, of the nonce's
    string [`${nonce}`] and of the modulus string: two calls with identical
    arguments (indeed with nonces printing alike) return identical results,
    hence byte-identical stored hashes. The external primitives are
    functions of their arguments. *)
Theorem build_stored_hash_deterministic (number : Type)
  (Number_toString : number -> jsstring) (poseidon2Hash : Z -> result bytes)
  (email1 email2 : jsstring) (nonce1 nonce2 : number) (pubkey1 pubkey2 : option jsstring) :
  email1 = email2 -> Number_toString nonce1 = Number_toString nonce2 -> pubkey1 = pubkey2 ->
  build_stored_hash number Number_toString poseidon2Hash email1 nonce1 pubkey1
  = build_stored_hash number Number_toString poseidon2Hash email2 nonce2 pubkey2.
Proof.
  intros -> Hn ->. unfold build_stored_hash. rewrite Hn. reflexivity.
Qed.

Lemma build_stored_hash_deterministic_witness :
  build_stored_hash Z (fun _ => js "7") (fun _ => Ok (repeat 9 32))
    (js "alice@example.com") 7 (Some (js "AQID"))
  = build_stored_hash Z (fun _ => js "7") (fun _ => Ok (repeat 9 32))
    (js "alice@example.com") 7 (Some (js "AQID")).
Proof.
  apply (build_stored_hash_deterministic Z (fun _ => js "7") (fun _ => Ok (repeat 9 32)));
    reflexivity.
Defined.

Ltac same_ok :=
  repeat match goal with
  | H1 : ?x = Ok ?a, H2 : ?x = Ok ?b |- _ =>
      rewrite H1 in H2; injection H2 as H2; subst
  end.

Ltac no_lowercase :=
  match goal with
  | H : toLowerCase_value _ None = Ok _ |- _ => cbv [toLowerCase_value] in H; discriminate H
  end.

(** ** C7: failures of [build_blob_from_jwt] *)

Section BlobFromJwtFailures.
Variable number : Type.
Variable Number_toString : number -> jsstring.
Variable parseInt10 : jsstring -> number.
Variable poseidon2Hash : Z -> result bytes.
Variable number_truthy : jsstring -> bool.
Variable loose_eq : jsstring -> option json -> bool.
Variable JSON_parse : jsstring -> result json.
Variable toLowerCase : jsstring -> jsstring.

Local Abbreviation build jwt keys :=
  (build_blob_from_jwt number Number_toString parseInt10 poseidon2Hash number_truthy
     loose_eq JSON_parse toLowerCase jwt keys).

Lemma claims_fail_blob_fails (jwt : jsstring) (keys : list Jwk.SigningKey) :
  is_ok (extract_jwt_claims JSON_parse toLowerCase jwt) = false ->
  is_ok (build jwt keys) = false.
Proof.
  unfold build_blob_from_jwt.
  destruct (extract_jwt_claims JSON_parse toLowerCase jwt); [discriminate|reflexivity].
Qed.

(** C7. [build_blob_from_jwt] throws when the decoded payload has no
    [email] or no [nonce], when the decoded header has no [kid], when no key
    of [keys] has a [kid] equal ([==]) to the token's, and when the nonce it
    encodes, [`${parseInt(nonce, 10)}`], is longer than 16 bytes. *)
Theorem build_blob_from_jwt_failures :
  (forall jwt keys p j,
      atob (segment (split_dot jwt) 1) = Ok p -> JSON_parse p = Ok j ->
      get_prop j (js "email") = Ok None ->
      is_ok (build jwt keys) = false)
  /\ (forall jwt keys p j,
      atob (segment (split_dot jwt) 1) = Ok p -> JSON_parse p = Ok j ->
      get_prop j (js "nonce") = Ok None ->
      is_ok (build jwt keys) = false)
  /\ (forall jwt keys hb hj,
      atob (segment (split_dot jwt) 0) = Ok hb -> JSON_parse hb = Ok hj ->
      get_prop hj (js "kid") = Ok None ->
      is_ok (build jwt keys) = false)
  /\ (forall jwt keys claims,
      extract_jwt_claims JSON_parse toLowerCase jwt = Ok claims ->
      Forall (fun key => loose_eq (Jwk.kid key) (JwtClaims.kid claims) = false) keys ->
      is_ok (build jwt keys) = false)
  /\ (forall jwt keys claims,
      extract_jwt_claims JSON_parse toLowerCase jwt = Ok claims ->
      (16 < length (Uint8Array_from_charCodes
                      (Number_toString (parseInt10 (JwtClaims.nonce claims)))))%nat ->
      is_ok (build jwt keys) = false).
Proof.
  split; [|split; [|split; [|split]]].
  - intros jwt keys p j Hp Hj He. apply claims_fail_blob_fails.
    destruct (extract_jwt_claims JSON_parse toLowerCase jwt) eqn:E; [|reflexivity].
    unfold extract_jwt_claims in E. cbv zeta in E. split_binds. same_ok.
    no_lowercase.
  - intros jwt keys p j Hp Hj Hn. apply claims_fail_blob_fails.
    destruct (extract_jwt_claims JSON_parse toLowerCase jwt) eqn:E; [|reflexivity].
    unfold extract_jwt_claims in E. cbv zeta in E. split_binds. same_ok.
    no_lowercase.
  - intros jwt keys hb hj Hh Hj Hk.
    unfold build_blob_from_jwt.
    destruct (extract_jwt_claims JSON_parse toLowerCase jwt) as [claims|] eqn:E; [|reflexivity].
    assert (Hkid : JwtClaims.kid claims = None).
    { unfold extract_jwt_claims in E. cbv zeta in E. split_binds. same_ok.
      injection E as <-. reflexivity. }
    cbn [bind]. rewrite Hkid. simpl truthy_value. rewrite !orb_true_r. reflexivity.
  - intros jwt keys claims E Hkeys.
    unfold build_blob_from_jwt. rewrite E. cbn [bind].
    destruct (_ || _ || _); [reflexivity|].
    replace (find (fun key => loose_eq (Jwk.kid key) (JwtClaims.kid claims)) keys) with
      (@None Jwk.SigningKey); [reflexivity|].
    induction Hkeys as [|key keys Hk _ IH]; [reflexivity|].
    simpl. rewrite Hk. exact IH.
  - intros jwt keys claims E Hlong.
    unfold build_blob_from_jwt. rewrite E. cbn [bind].
    destruct (_ || _ || _); [reflexivity|].
    destruct (find _ keys) as [key|]; [|reflexivity].
    unfold build_stored_hash.
    destruct (poseidon_hash poseidon2Hash (JwtClaims.email claims)); [|reflexivity].
    cbn [bind]. unfold new_array_fill0, zlen.
    replace (16 - Z.of_nat (length (Uint8Array_from_charCodes
               (Number_toString (parseInt10 (JwtClaims.nonce claims))))) <? 0)
      with true by (symmetry; apply Z.ltb_lt; lia).
    reflexivity.
Qed.
End BlobFromJwtFailures.

Lemma build_blob_from_jwt_failures_witness :
  let payload := JObject [(js "email", JString (js "a@b.c"));
                          (js "nonce", JString (js "12345678901234567"));
                          (js "kid", JString (js "k1"))] in
  is_ok (build_blob_from_jwt jsstring (fun s => s) (fun s => s) (fun _ => Ok (repeat 9 32))
           (fun _ => true) (fun _ _ => true) (fun _ => Ok payload) (fun s => s)
           (js "e30.e30") [{| Jwk.kid := js "k1"; Jwk.n := Some (js "AQAB") |}]) = false.
Proof.
  intros payload.
  refine (proj2 (proj2 (proj2 (proj2 (build_blob_from_jwt_failures jsstring (fun s => s)
            (fun s => s) (fun _ => Ok (repeat 9 32)) (fun _ => true) (fun _ _ => true)
            (fun _ => Ok payload) (fun s => s)))))
            (js "e30.e30") _
            {| JwtClaims.email := js "a@b.c"; JwtClaims.nonce := js "12345678901234567";
               JwtClaims.kid := Some (JString (js "k1")) |} _ _).
  - vm_compute. reflexivity.
  - vm_compute. lia.
Defined.

(** ** C10: claims of a token whose segments use the base64url alphabet *)

(** The segments of [sample_jwt] are the unpadded base64url encodings of
    the UTF-8 header and payload, as a JWT encoder writes them. *)
Lemma sample_jwt_segments :
  spec_b64url_encode (utf8_encode sample_header_json) = sample_header_segment /\
  spec_b64url_encode (utf8_encode sample_payload_json) = sample_payload_segment.
Proof. split; vm_compute; reflexivity. Qed.

(** C10 (divergence). The payload of [sample_jwt] holds [email] and
    [nonce] and its header holds [kid], but its payload segment contains
    ['_']: [extract_jwt_claims] passes it to [atob], which rejects it, so no
    claims are returned, whatever [JSON.parse] gives for the header; the
    base64url decoder [b64urlToU8] of common.ts decodes the segment. *)
Theorem extract_jwt_claims_rejects_base64url
  (JSON_parse : jsstring -> result json) (toLowerCase : jsstring -> jsstring) :
  is_ok (extract_jwt_claims JSON_parse toLowerCase sample_jwt) = false /\
  atob sample_payload_segment = Err InvalidCharacterError /\
  b64urlToU8 sample_payload_segment = Ok (utf8_encode sample_payload_json).
Proof.
  assert (Hh : atob (segment (split_dot sample_jwt) 0) = Ok sample_header_json)
    by (vm_compute; reflexivity).
  assert (Hp : atob (segment (split_dot sample_jwt) 1) = Err InvalidCharacterError)
    by (vm_compute; reflexivity).
  split; [|split; vm_compute; reflexivity].
  unfold extract_jwt_claims. cbv zeta. rewrite Hh. cbn [bind].
  destruct (JSON_parse sample_header_json); [|reflexivity].
  cbn [bind]. rewrite Hp. reflexivity.
Qed.

(** * Further properties of the code *)

(** ** Hex strings: [encodeToHex] and [identity_hash] *)

Lemma hex_pair_check_all :
  forallb (fun n => let x := Z.of_nat n in
                    if list_eq_dec Z.eq_dec (padStart (bigint_toString16 x) 2 char_0) (hex_pair x)
                    then true else false) (seq 0 256) = true.
Proof. vm_compute. reflexivity. Qed.

Lemma byte_toString16_pad (x : Z) :
  is_byte x -> padStart (bigint_toString16 x) 2 char_0 = hex_pair x.
Proof.
  intros Hx. unfold is_byte in Hx.
  pose proof (proj1 (forallb_forall _ _) hex_pair_check_all (Z.to_nat x)) as H.
  assert (Hin : In (Z.to_nat x) (seq 0 256)) by (apply in_seq; lia).
  specialize (H Hin). cbv beta zeta in H. rewrite Z2Nat.id in H by lia.
  destruct (list_eq_dec Z.eq_dec _ _); [assumption|discriminate].
Qed.

Lemma encodeToHex_pairs (data : bytes) :
  Forall is_byte data -> encodeToHex data = flat_map hex_pair data.
Proof.
  unfold encodeToHex. rewrite flat_map_concat_map.
  intros H. f_equal. apply map_ext_in. intros x Hx.
  apply byte_toString16_pad. rewrite Forall_forall in H. auto.
Qed.

Lemma skipn_flat_map_pairs (data : bytes) (i : nat) :
  skipn (2 * i) (flat_map hex_pair data) = flat_map hex_pair (skipn i data).
Proof.
  revert i. induction data as [|x data IH]; intros [|i].
  - reflexivity.
  - simpl. destruct (2 * S i)%nat; reflexivity.
  - reflexivity.
  - replace (2 * S i)%nat with (S (S (2 * i))) by lia. simpl. apply IH.
Qed.

Lemma parseInt16_hex_pair (x : Z) : is_byte x -> parseInt16 (hex_pair x) = Some x.
Proof.
  unfold is_byte, hex_pair. intros Hx.
  rewrite parseInt16_two_digits by (Z.div_mod_to_equations; lia).
  f_equal. Z.div_mod_to_equations. lia.
Qed.

Lemma length_flat_map_pairs (data : bytes) :
  length (flat_map hex_pair data) = (2 * length data)%nat.
Proof. induction data as [|x data IH]; simpl; [reflexivity|]. rewrite IH. lia. Qed.

Lemma skipn_nth_cons {A} (l : list A) (i : nat) (d : A) :
  (i < length l)%nat -> skipn i l = nth i l d :: skipn (S i) l.
Proof.
  revert i. induction l as [|x l IH]; intros [|i] Hi; simpl in *; try lia.
  - reflexivity.
  - apply IH. lia.
Qed.

(** X1. For bytes, [encodeToHex] writes exactly two characters per byte,
    all in [0-9a-f], and the pair at offset [2 i] parses back (with
    [parseInt(_, 16)]) to byte [i]. *)
Theorem encodeToHex_decodes (data : bytes) :
  Forall is_byte data ->
  length (encodeToHex data) = (2 * length data)%nat /\
  Forall (fun c => (48 <= c <= 57) \/ (97 <= c <= 102)) (encodeToHex data) /\
  (forall i : nat, (i < length data)%nat ->
     parseInt16 (slice2 (encodeToHex data) (2 * i)) = Some (nth i data 0)).
Proof.
  intros H. rewrite (encodeToHex_pairs data H).
  split; [apply length_flat_map_pairs|split].
  - apply Forall_forall. intros c Hc. apply in_flat_map in Hc as [x [Hx Hc]].
    rewrite Forall_forall in H. specialize (H x Hx). unfold is_byte in H.
    unfold hex_pair, hex_char in Hc.
    destruct Hc as [Hc|[Hc|[]]]; subst c;
      match goal with |- context [if ?b then _ else _] => destruct b eqn:E end;
      first [apply Z.ltb_lt in E | apply Z.ltb_ge in E];
      Z.div_mod_to_equations; lia.
  - intros i Hi. unfold slice2. rewrite skipn_flat_map_pairs.
    rewrite (skipn_nth_cons data i 0 Hi). cbn [flat_map].
    unfold hex_pair at 1. cbn [app firstn]. fold (hex_pair (nth i data 0)).
    apply parseInt16_hex_pair. rewrite Forall_forall in H. apply H, nth_In, Hi.
Qed.

Lemma encodeToHex_decodes_witness :
  let data := [0; 10; 171; 255] in
  Forall is_byte data /\
  (length (encodeToHex data) = (2 * length data)%nat /\
   Forall (fun c => (48 <= c <= 57) \/ (97 <= c <= 102)) (encodeToHex data) /\
   (forall i : nat, (i < length data)%nat ->
      parseInt16 (slice2 (encodeToHex data) (2 * i)) = Some (nth i data 0))).
Proof.
  intros data.
  assert (H : Forall is_byte data) by (repeat constructor; unfold is_byte; lia).
  split; [exact H|]. apply encodeToHex_decodes. exact H.
Defined.

(** X2. When SHA-256 returns 32 bytes, the [identity_hash] of check_jwt.ts
    (with [encodeToHex]) and that of check_secret.ts (with
    [Buffer.toString("hex")]) return the same 64-character string: the hex
    encoding of the data of the blob [build_blob] builds for the same
    identity and password. *)
Theorem identity_hash_hex (sha256 : bytes -> bytes)
  (Hsha : forall b, length (sha256 b) = 32%nat /\ Forall is_byte (sha256 b))
  (identity password : jsstring) :
  SecretCopy.identity_hash sha256 identity password
  = SecretIdentity.identity_hash sha256 identity password /\
  length (SecretCopy.identity_hash sha256 identity password) = 64%nat /\
  exists blob, build_blob sha256 identity password = Ok blob /\
    SecretCopy.identity_hash sha256 identity password = encodeToHex (data blob).
Proof.
  unfold SecretCopy.identity_hash, SecretIdentity.identity_hash. cbv zeta.
  set (c := sha256 (utf8_encode (identity ++ [char_colon]) ++ sha256 (stringToBytes password))).
  destruct (Hsha (utf8_encode (identity ++ [char_colon]) ++ sha256 (stringToBytes password)))
    as [Hl Hb].
  fold c in Hl, Hb.
  rewrite (encodeToHex_pairs c Hb).
  split; [reflexivity|]. split.
  - rewrite length_flat_map_pairs, Hl. reflexivity.
  - exists {| contract_name := js "check_secret"; data := c |}.
    split; [reflexivity|]. cbn [data]. symmetry. apply encodeToHex_pairs, Hb.
Qed.

Lemma identity_hash_hex_witness :
  let sha256 := fun _ : bytes => repeat 171 32 in
  (forall b, length (sha256 b) = 32%nat /\ Forall is_byte (sha256 b)) /\
  (SecretCopy.identity_hash sha256 (js "alice") (js "pw")
   = SecretIdentity.identity_hash sha256 (js "alice") (js "pw") /\
   length (SecretCopy.identity_hash sha256 (js "alice") (js "pw")) = 64%nat /\
   exists blob, build_blob sha256 (js "alice") (js "pw") = Ok blob /\
     SecretCopy.identity_hash sha256 (js "alice") (js "pw") = encodeToHex (data blob)).
Proof.
  intros sha256.
  assert (H : forall b, length (sha256 b) = 32%nat /\ Forall is_byte (sha256 b)).
  { intros b. split; [reflexivity|]. unfold sha256.
    apply Forall_forall. intros x Hx. apply repeat_spec in Hx. subst x.
    unfold is_byte. lia. }
  split; [exact H|]. apply identity_hash_hex. exact H.
Defined.

(** ** Field bytes back to integers: [bytesToBigInt] *)

Lemma mod_mul_split (v B P : Z) :
  0 < B -> 0 < P -> v mod (B * P) = v mod B + B * ((v / B) mod P).
Proof.
  intros HB HP. symmetry. apply Z.mod_unique with (q := v / B / P).
  - left. pose proof (Z.mod_pos_bound v B HB). pose proof (Z.mod_pos_bound (v / B) P HP).
    split; [nia|nia].
  - pose proof (Z.div_mod v B ltac:(lia)). pose proof (Z.div_mod (v / B) P ltac:(lia)).
    nia.
Qed.

Lemma bytesToBigInt_app_byte (bs : bytes) (b : Z) :
  bytesToBigInt (bs ++ [b]) = bytesToBigInt bs * 256 + b.
Proof.
  unfold bytesToBigInt. rewrite fold_left_app. cbn [fold_left].
  rewrite Z.shiftl_mul_pow2 by lia. reflexivity.
Qed.

Lemma bytesToBigInt_digits (k : nat) (v : Z) :
  0 <= v ->
  bytesToBigInt (map (fun i => (v / 256 ^ Z.of_nat (k - 1 - i)) mod 256) (seq 0 k))
  = v mod 256 ^ Z.of_nat k.
Proof.
  revert v. induction k as [|k IH]; intros v Hv.
  - simpl. rewrite Z.mod_1_r. reflexivity.
  - rewrite seq_S, map_app. cbn [map].
    replace (S k - 1 - (0 + k))%nat with 0%nat by lia.
    rewrite bytesToBigInt_app_byte.
    rewrite (map_ext_in _ (fun i => (v / 256 / 256 ^ Z.of_nat (k - 1 - i)) mod 256)).
    + rewrite IH by (apply Z.div_pos; lia).
      rewrite Nat2Z.inj_succ, Z.pow_succ_r by lia.
      rewrite mod_mul_split by (try apply Z.pow_pos_nonneg; lia).
      simpl (256 ^ Z.of_nat 0). rewrite Z.div_1_r. lia.
    + intros i Hi. apply in_seq in Hi.
      rewrite Z.div_div by (try apply Z.pow_pos_nonneg; lia).
      replace (S k - 1 - i)%nat with (S (k - 1 - i)) by lia.
      rewrite Nat2Z.inj_succ, Z.pow_succ_r by lia. reflexivity.
Qed.

Lemma bytesToBigInt_be32 (v : Z) : 0 <= v < 2 ^ 256 -> bytesToBigInt (be32 v) = v.
Proof.
  intros Hv. unfold be32.
  rewrite (map_ext_in _ (fun i => (v / 256 ^ Z.of_nat (32 - 1 - i)) mod 256)).
  - rewrite bytesToBigInt_digits by lia. apply Z.mod_small.
    change (256 ^ Z.of_nat 32) with (2 ^ 256). lia.
  - intros i Hi. apply in_seq in Hi. rewrite Nat2Z.inj_sub by lia. reflexivity.
Qed.

(** X3. [bytesToBigInt] inverts [hexToUint8Array] on a field string whose
    [BigInt] value lies in [[0, 2^256)]: the 32 bytes read back as that
    value. *)
Theorem hexToUint8Array_bytesToBigInt (BigInt : jsstring -> result Z) (hex : jsstring) (v : Z) :
  BigInt hex = Ok v -> 0 <= v < 2 ^ 256 ->
  exists u, hexToUint8Array BigInt hex = Ok u /\ length u = 32%nat /\ bytesToBigInt u = v.
Proof.
  intros Hb Hv. exists (be32 v).
  split; [apply hexToUint8Array_be32; assumption|].
  split; [reflexivity|]. apply bytesToBigInt_be32, Hv.
Qed.

Lemma hexToUint8Array_bytesToBigInt_witness :
  let BigInt := fun _ : jsstring => Ok 258 in
  (BigInt (js "258") = Ok 258 /\ 0 <= 258 < 2 ^ 256) /\
  exists u, hexToUint8Array BigInt (js "258") = Ok u /\ length u = 32%nat /\
    bytesToBigInt u = 258.
Proof.
  intros BigInt. split; [split; [reflexivity|lia]|].
  apply hexToUint8Array_bytesToBigInt; [reflexivity|lia].
Defined.

Lemma bytesToBigInt_leading_zeros (k : nat) (bs : bytes) :
  bytesToBigInt (repeat 0 k ++ bs) = bytesToBigInt bs.
Proof.
  unfold bytesToBigInt. rewrite fold_left_app.
  replace (fold_left (fun r b => Z.shiftl r 8 + b) (repeat 0 k) 0) with 0; [reflexivity|].
  induction k as [|k IH]; [reflexivity|]. simpl. exact IH.
Qed.

Lemma utf8_encode_leading_nul (k : nat) (s : jsstring) :
  utf8_encode (repeat 0 k ++ s) = repeat 0 k ++ utf8_encode s.
Proof.
  induction k as [|k IH]; [reflexivity|].
  unfold utf8_encode in *. simpl repeat. rewrite <- app_comm_cons.
  rewrite code_points_cons. simpl. rewrite IH. reflexivity.
Qed.

(** X4. [poseidon_hash] reads the UTF-8 bytes of its string as one integer
    ([bytesToBigInt]), so leading U+0000 characters are lost: an email with
    [k] leading NUL characters has the same Poseidon hash, and the same
    stored hash, as the email without them. *)
Theorem build_stored_hash_leading_nul (number : Type) (Number_toString : number -> jsstring)
  (poseidon2Hash : Z -> result bytes) (k : nat) (email : jsstring) (nonce : number)
  (pubkey : option jsstring) :
  poseidon_hash poseidon2Hash (repeat 0 k ++ email) = poseidon_hash poseidon2Hash email /\
  build_stored_hash number Number_toString poseidon2Hash (repeat 0 k ++ email) nonce pubkey
  = build_stored_hash number Number_toString poseidon2Hash email nonce pubkey.
Proof.
  assert (H : poseidon_hash poseidon2Hash (repeat 0 k ++ email)
              = poseidon_hash poseidon2Hash email).
  { unfold poseidon_hash. rewrite utf8_encode_leading_nul, bytesToBigInt_leading_zeros.
    reflexivity. }
  split; [exact H|]. unfold build_stored_hash. rewrite H. reflexivity.
Qed.

(** ** [splitBigIntToLimbs] *)

Lemma map_result_Ok {A B} (f : A -> result B) (g : A -> B) (l : list A) :
  (forall x, In x l -> f x = Ok (g x)) -> map_result f l = Ok (map g l).
Proof.
  induction l as [|x l IH]; intros H; [reflexivity|].
  simpl. rewrite H by (left; reflexivity). cbn [bind].
  rewrite IH by (intros y Hy; apply H; right; exact Hy). reflexivity.
Qed.

Lemma splitBigIntToLimbs_div (x bl : Z) (n : nat) :
  0 <= x -> 0 < bl ->
  splitBigIntToLimbs x bl n
  = Ok (map (fun i => (x / 2 ^ (Z.of_nat i * bl)) mod 2 ^ bl) (seq 0 n)).
Proof.
  intros Hx Hbl. unfold splitBigIntToLimbs. apply map_result_Ok.
  intros i _. rewrite !Z.shiftl_1_l.
  assert (Hp : 0 < 2 ^ (Z.of_nat i * bl)) by (apply Z.pow_pos_nonneg; lia).
  replace (2 ^ (Z.of_nat i * bl) =? 0) with false by (symmetry; apply Z.eqb_neq; lia).
  rewrite Z.quot_div_nonneg by lia.
  replace (2 ^ bl - 1) with (Z.ones bl) by (rewrite Z.ones_equiv; lia).
  rewrite Z.land_ones by lia. reflexivity.
Qed.

Lemma limbs_recompose (bl : Z) (n : nat) : forall x,
  0 <= x -> 0 < bl ->
  limbs_value bl (map (fun i => (x / 2 ^ (Z.of_nat i * bl)) mod 2 ^ bl) (seq 0 n))
  = x mod 2 ^ (bl * Z.of_nat n).
Proof.
  induction n as [|n IH]; intros x Hx Hbl.
  - simpl. rewrite Z.mul_0_r, Z.mod_1_r. reflexivity.
  - cbn [seq map limbs_value]. rewrite <- seq_shift, map_map.
    rewrite (map_ext _ (fun i => (x / 2 ^ bl / 2 ^ (Z.of_nat i * bl)) mod 2 ^ bl)).
    + rewrite IH by (try apply Z.div_pos; try apply Z.pow_pos_nonneg; lia).
      rewrite Z.mul_0_l, Z.pow_0_r, Z.div_1_r.
      rewrite Nat2Z.inj_succ, Z.mul_succ_r, Z.pow_add_r by lia.
      rewrite (Z.mul_comm (2 ^ (bl * Z.of_nat n))).
      rewrite mod_mul_split by (apply Z.pow_pos_nonneg; lia). reflexivity.
    + intros i. rewrite Z.div_div by (try apply Z.pow_nonzero; try apply Z.pow_pos_nonneg; lia).
      rewrite <- Z.pow_add_r by lia. f_equal. f_equal. f_equal. lia.
Qed.

(** X5. For a non-negative BigInt and a positive limb width [bl] (the
    [byteLength] argument, used as a number of bits), [splitBigIntToLimbs]
    returns [numLimbs] limbs, each below [2^bl], which read as
    little-endian digits in base [2^bl] give the value modulo
    [2^(bl * numLimbs)]. *)
Theorem splitBigIntToLimbs_recompose (x bl : Z) (n : nat) :
  0 <= x -> 0 < bl ->
  exists limbs, splitBigIntToLimbs x bl n = Ok limbs /\
    length limbs = n /\
    Forall (fun c => 0 <= c < 2 ^ bl) limbs /\
    limbs_value bl limbs = x mod 2 ^ (bl * Z.of_nat n).
Proof.
  intros Hx Hbl. eexists. split; [apply splitBigIntToLimbs_div; assumption|].
  split; [rewrite length_map, length_seq; reflexivity|]. split.
  - apply Forall_forall. intros c Hc. apply in_map_iff in Hc as [i [<- _]].
    apply Z.mod_pos_bound. apply Z.pow_pos_nonneg; lia.
  - apply limbs_recompose; assumption.
Qed.

Lemma splitBigIntToLimbs_recompose_witness :
  (0 <= 1000 /\ 0 < 8) /\
  exists limbs, splitBigIntToLimbs 1000 8 3 = Ok limbs /\
    length limbs = 3%nat /\
    Forall (fun c => 0 <= c < 2 ^ 8) limbs /\
    limbs_value 8 limbs = 1000 mod 2 ^ (8 * Z.of_nat 3).
Proof.
  split; [lia|]. apply splitBigIntToLimbs_recompose; lia.
Defined.

(** ** Base64url edge cases of [b64urlToU8] *)

Lemma strip_padding_padded (D : jsstring) :
  Forall (fun c => (c =? 61) = false) D ->
  (length D mod 4 <> 1)%nat ->
  strip_padding (D ++ b64_padding D) = D.
Proof.
  intros HD Hm. unfold b64_padding.
  pose proof (Nat.div_mod (length D) 4 ltac:(lia)) as Hq.
  pose proof (Nat.mod_upper_bound (length D) 4 ltac:(lia)) as Hr4.
  remember (length D mod 4)%nat as r eqn:Hr.
  destruct r as [|[|[|[|r]]]]; try lia; simpl repeat.
  - rewrite app_nil_r. apply strip_padding_no_eq, HD.
  - unfold strip_padding. rewrite length_app. simpl length.
    replace (length D + 2)%nat with ((length D / 4 + 1) * 4)%nat by lia.
    rewrite Nat.Div0.mod_mul. cbn [Nat.eqb].
    rewrite rev_app_distr. simpl. rewrite rev_involutive. reflexivity.
  - unfold strip_padding. rewrite length_app. simpl length.
    replace (length D + 1)%nat with ((length D / 4 + 1) * 4)%nat by lia.
    rewrite Nat.Div0.mod_mul. cbn [Nat.eqb].
    assert (Hrev : Forall (fun c => (c =? 61) = false) (rev D)) by (apply Forall_rev; exact HD).
    rewrite rev_app_distr. simpl.
    destruct (rev D) as [|b r'] eqn:E.
    + apply (f_equal (@length Z)) in E. rewrite length_rev in E. simpl in E. lia.
    + inversion Hrev as [|? ? Hb _]; subst. rewrite Hb. simpl.
      rewrite <- (rev_involutive D), E. reflexivity.
Qed.

Lemma b64url_to_b64_padding (s pad : jsstring) :
  Forall (fun c => c = 61) pad -> b64url_to_b64 (s ++ pad) = b64url_to_b64 s ++ pad.
Proof.
  intros Hp. unfold b64url_to_b64. rewrite !map_app. f_equal.
  induction Hp as [|c pad Hc _ IH]; [reflexivity|]. subst c. simpl. rewrite IH. reflexivity.
Qed.

Lemma filter_padding (pad : jsstring) :
  Forall (fun c => c = 61) pad -> filter (fun c => negb (is_ascii_whitespace c)) pad = pad.
Proof.
  induction 1 as [|c pad Hc _ IH]; [reflexivity|]. subst c. simpl. rewrite IH. reflexivity.
Qed.

(** X6. [b64urlToU8] decodes the base64url encoding of any bytes back to
    those bytes, both without padding and followed by its [=] padding (up to
    a length multiple of 4). *)
Theorem b64urlToU8_padded (m : bytes) :
  Forall is_byte m ->
  b64urlToU8 (spec_b64url_encode m) = Ok m /\
  b64urlToU8 (spec_b64url_encode m ++ b64_padding (spec_b64url_encode m)) = Ok m.
Proof.
  intros Hm. split; [exact (b64urlToU8_roundtrip m Hm)|].
  destruct (spec_sextets_decode m Hm) as [Hd [Hr [q [r [Hl Hr']]]]].
  assert (Hpad : Forall (fun c => c = 61) (b64_padding (spec_b64url_encode m)))
    by (apply Forall_forall; intros c Hc; apply repeat_spec in Hc; exact Hc).
  unfold b64urlToU8. rewrite (b64url_to_b64_padding _ _ Hpad).
  unfold spec_b64url_encode at 1. rewrite b64url_to_b64_map.
  unfold atob. rewrite filter_app, (filter_no_whitespace _ Hr), (filter_padding _ Hpad).
  assert (Hmod : (length (map (fun x => url_fix (spec_b64url_char x)) (spec_sextets m)) mod 4
                  = r)%nat).
  { rewrite length_map, Hl, Nat.mul_comm, Nat.add_comm, Nat.Div0.mod_add.
    apply Nat.mod_small. lia. }
  replace (b64_padding (spec_b64url_encode m))
    with (b64_padding (map (fun x => url_fix (spec_b64url_char x)) (spec_sextets m)))
    by (unfold b64_padding, spec_b64url_encode; rewrite !length_map; reflexivity).
  rewrite strip_padding_padded by (try apply no_eq_map; try exact Hr; lia).
  rewrite Hmod.
  replace (Nat.eqb r 1) with false by (symmetry; apply Nat.eqb_neq; lia).
  rewrite (b64_values_map _ Hr), Hd. cbn [bind].
  rewrite map_mod256_bytes by exact Hm. reflexivity.
Qed.

Lemma b64urlToU8_padded_witness :
  Forall is_byte [1; 2] /\
  (b64urlToU8 (spec_b64url_encode [1; 2]) = Ok [1; 2] /\
   b64urlToU8 (spec_b64url_encode [1; 2] ++ b64_padding (spec_b64url_encode [1; 2])) = Ok [1; 2]).
Proof.
  assert (H : Forall is_byte [1; 2]) by (repeat constructor; unfold is_byte; lia).
  split; [exact H|]. apply b64urlToU8_padded. exact H.
Defined.

(** ** [hexToUint8Array] above [2^256] *)

Lemma hex_digit_count_65 (v : Z) : 2 ^ 256 <= v < 2 ^ 260 -> hex_digit_count v = 65%nat.
Proof.
  intros Hv. unfold hex_digit_count.
  replace (v =? 0) with false by (symmetry; apply Z.eqb_neq; lia).
  assert (256 <= Z.log2 v < 260).
  { split.
    - apply Z.log2_le_pow2; lia.
    - apply Z.log2_lt_pow2; lia. }
  replace (Z.log2 v / 4) with 64 by (Z.div_mod_to_equations; lia). reflexivity.
Qed.

Lemma slice2_radix16_gen (n i : nat) (v : Z) :
  (2 * i + 2 <= n)%nat ->
  slice2 (radix16_digits n v) (2 * i) =
    [hex_char ((v / 16 ^ Z.of_nat (n - 1 - 2 * i)) mod 16);
     hex_char ((v / 16 ^ Z.of_nat (n - 2 - 2 * i)) mod 16)].
Proof.
  intros Hi. unfold slice2, radix16_digits.
  rewrite skipn_map, skipn_seq.
  replace (n - 2 * i)%nat with (S (S (n - 2 - 2 * i))) by lia.
  cbn [seq map firstn].
  replace (n - 1 - (0 + 2 * i))%nat with (n - 1 - 2 * i)%nat by lia.
  replace (n - 1 - S (0 + 2 * i))%nat with (n - 2 - 2 * i)%nat by lia.
  reflexivity.
Qed.

Lemma div16_succ (v : Z) (j : nat) :
  v / 16 ^ Z.of_nat (S j) = v / 16 / 16 ^ Z.of_nat j.
Proof.
  rewrite Z.div_div by (try apply Z.pow_pos_nonneg; lia).
  rewrite Nat2Z.inj_succ, Z.pow_succ_r by lia. reflexivity.
Qed.

(** X7. A field value in [[2^256, 2^260)] has 65 hex digits:
    [hexToUint8Array] returns 32 bytes (the [Uint8Array] has length
    [floor(65 / 2)] and the write at index 32 is ignored), which are the
    32-byte big-endian encoding of the value without its last hex digit,
    [v / 16]: the value is not rejected, and its lowest 4 bits are lost. *)
Theorem hexToUint8Array_drops_last_digit (BigInt : jsstring -> result Z) (hex : jsstring)
  (v : Z) :
  BigInt hex = Ok v -> 2 ^ 256 <= v < 2 ^ 260 ->
  hexToUint8Array BigInt hex = Ok (be32 (v / 16)).
Proof.
  intros Hb Hv. unfold hexToUint8Array. rewrite Hb. cbn [bind].
  assert (Hs : bigint_toString16 v = radix16_digits 65 v).
  { unfold bigint_toString16. replace (v <? 0) with false by (symmetry; apply Z.ltb_ge; lia).
    rewrite hex_digit_count_65 by lia. reflexivity. }
  rewrite Hs.
  assert (Hp : padStart (radix16_digits 65 v) 64 char_0 = radix16_digits 65 v).
  { unfold padStart. rewrite radix16_digits_length. reflexivity. }
  rewrite Hp, radix16_digits_length.
  change ((65 + 1) / 2)%nat with 33%nat. change (65 / 2)%nat with 32%nat.
  rewrite seq_S, fold_left_app, fold_typed_set by lia.
  rewrite Nat.sub_diag, app_nil_r. cbn [fold_left].
  unfold typed_set at 1. rewrite length_map, length_seq. cbn [Nat.ltb Nat.leb].
  f_equal. unfold be32. apply map_ext_in. intros i Hi. apply in_seq in Hi.
  rewrite slice2_radix16_gen by lia.
  rewrite parseInt16_two_digits by (split; [apply Z.mod_pos_bound | apply Z.mod_pos_bound]; lia).
  unfold ToUint8.
  replace (65 - 1 - 2 * i)%nat with (S (S (2 * (31 - i)))) by lia.
  replace (65 - 2 - 2 * i)%nat with (S (2 * (31 - i)))%nat by lia.
  rewrite (div16_succ v (S (2 * (31 - i)))), (div16_succ v (2 * (31 - i))).
  rewrite (two_hex_digits_byte (v / 16) (31 - i)) by (apply Z.div_pos; lia).
  rewrite Z.mod_mod by lia.
  rewrite Nat2Z.inj_sub by lia. reflexivity.
Qed.

Lemma hexToUint8Array_drops_last_digit_witness :
  let BigInt := fun _ : jsstring => Ok (2 ^ 256 + 255) in
  (BigInt (js "x") = Ok (2 ^ 256 + 255) /\ 2 ^ 256 <= 2 ^ 256 + 255 < 2 ^ 260) /\
  hexToUint8Array BigInt (js "x") = Ok (be32 ((2 ^ 256 + 255) / 16)).
Proof.
  intros BigInt. split; [split; [reflexivity|lia]|].
  apply hexToUint8Array_drops_last_digit; [reflexivity|lia].
Defined.

(** ** Failures of [flattenFieldsAsArray] *)

Lemma hexToUint8Array_ok (BigInt : jsstring -> result Z) (f : jsstring) :
  is_ok (BigInt f) = true -> is_ok (hexToUint8Array BigInt f) = true.
Proof. unfold hexToUint8Array. destruct (BigInt f); [reflexivity|discriminate]. Qed.

Lemma typed_set_length (u8 : list Z) (i : nat) (v : Z) :
  length (typed_set u8 i v) = length u8.
Proof.
  unfold typed_set. destruct (Nat.ltb i (length u8)) eqn:E; [|reflexivity].
  apply Nat.ltb_lt in E. rewrite length_app, length_firstn. cbn [length].
  rewrite length_skipn. lia.
Qed.

Lemma fold_typed_set_length (f : nat -> Z) (l : list nat) (u8 : list Z) :
  length (fold_left (fun u8 i => typed_set u8 i (f i)) l u8) = length u8.
Proof.
  revert u8. induction l as [|i l IH]; intros u8; [reflexivity|].
  cbn [fold_left]. rewrite IH. apply typed_set_length.
Qed.

Lemma hexToUint8Array_length (BigInt : jsstring -> result Z) (f : jsstring) (v : Z) :
  BigInt f = Ok v ->
  exists u, hexToUint8Array BigInt f = Ok u /\ (32 <= length u)%nat.
Proof.
  intros Hv. unfold hexToUint8Array. rewrite Hv. cbn [bind].
  eexists. split; [reflexivity|].
  rewrite fold_typed_set_length, repeat_length.
  assert (H : (64 <= length (padStart (bigint_toString16 v) 64 char_0))%nat).
  { unfold padStart.
    destruct (64 <=? Z.of_nat (length (bigint_toString16 v))) eqn:E.
    - apply Z.leb_le in E. lia.
    - apply Z.leb_gt in E. rewrite length_app, repeat_length. lia. }
  change 32%nat with (64 / 2)%nat. apply Nat.Div0.div_le_mono. exact H.
Qed.

(** X8. [flattenFieldsAsArray] fails only through [BigInt]. When [BigInt]
    accepts every field, whatever the values (negative ones and ones at or
    above [2^256] included), [hexToUint8Array] succeeds on each field with at
    least 32 bytes, and the result is the concatenation of these arrays in
    order. When [BigInt] rejects a field and accepts every field before it,
    the result is that field's error. *)
Theorem flattenFieldsAsArray_errors (BigInt : jsstring -> result Z) :
  (forall fields, Forall (fun f => is_ok (BigInt f) = true) fields ->
     exists arrays,
       map_result (hexToUint8Array BigInt) fields = Ok arrays /\
       Forall (fun a => (32 <= length a)%nat) arrays /\
       flattenFieldsAsArray BigInt fields = Ok (concat arrays)) /\
  (forall pre s post e, Forall (fun f => is_ok (BigInt f) = true) pre ->
     BigInt s = Err e ->
     flattenFieldsAsArray BigInt (pre ++ s :: post) = Err e).
Proof.
  split.
  - intros fields H.
    assert (Hm : exists arrays, map_result (hexToUint8Array BigInt) fields = Ok arrays /\
                                Forall (fun a => (32 <= length a)%nat) arrays).
    { induction H as [|f fields Hf _ [arrays [IH Hl]]]; [eexists; split; [reflexivity|constructor]|].
      destruct (BigInt f) as [v|] eqn:Ev; [|discriminate].
      destruct (hexToUint8Array_length BigInt f v Ev) as [a [Ea Ha]].
      exists (a :: arrays). simpl. rewrite Ea, IH. split; [reflexivity|constructor; assumption]. }
    destruct Hm as [arrays [Hm Hl]]. exists arrays. split; [exact Hm|]. split; [exact Hl|].
    unfold flattenFieldsAsArray. rewrite Hm. cbn [bind].
    apply flattenUint8Arrays_concat.
  - intros pre s post e H Hs. unfold flattenFieldsAsArray.
    replace (map_result (hexToUint8Array BigInt) (pre ++ s :: post)) with
      (@Err (list (list Z)) e); [reflexivity|].
    induction H as [|f pre Hf _ IH].
    + simpl. unfold hexToUint8Array at 1. rewrite Hs. reflexivity.
    + apply hexToUint8Array_ok in Hf. simpl.
      destruct (hexToUint8Array BigInt f) eqn:Ea; [|discriminate]. cbn [bind].
      rewrite <- IH. reflexivity.
Qed.

(** ** The secret-check copy in check_jwt.ts *)

Lemma copy_loop_any (src pre rest : list Z) :
  copy_loop src (length pre) (pre ++ rest) = pre ++ src ++ skipn (length src) rest.
Proof.
  revert pre rest. induction src as [|x src IH]; intros pre rest; [reflexivity|].
  destruct rest as [|r rest].
  - simpl. unfold js_array_set.
    rewrite app_nil_r, Nat.ltb_irrefl.
    replace (S (length pre)) with (length (pre ++ [x])) by (rewrite length_app; simpl; lia).
    rewrite <- (app_nil_r (pre ++ [x])) at 2. rewrite IH, skipn_nil.
    rewrite <- app_assoc. reflexivity.
  - simpl. rewrite js_array_set_middle.
    replace (S (length pre)) with (length (pre ++ [x])) by (rewrite length_app; simpl; lia).
    replace (pre ++ x :: rest) with ((pre ++ [x]) ++ rest) by (rewrite <- app_assoc; reflexivity).
    rewrite IH. rewrite <- app_assoc. reflexivity.
Qed.

Lemma skipn_repeat_0 (k n : nat) : skipn k (repeat 0 n) = repeat 0 (n - k).
Proof.
  revert n. induction k as [|k IH]; intros [|n]; simpl; try reflexivity.
  apply IH.
Qed.

Lemma copy_loop_pad (src : list Z) (n : nat) :
  copy_loop src 0 (repeat 0 n) = src ++ repeat 0 (n - length src).
Proof.
  pose proof (copy_loop_any src [] (repeat 0 n)) as H. simpl in H.
  rewrite H, skipn_repeat_0. reflexivity.
Qed.

Lemma copy_generateProverData_ok (id : jsstring) (pwd sh : bytes) (tx : jsstring)
  (bi cnt : Z) :
  (length sh <= 32)%nat -> length pwd = 32%nat ->
  exists out, SecretCopy.generateProverData id pwd sh tx bi cnt = Ok out /\
    SecretCopy.blob (SecretCopy.hyli_output out) = sh ++ repeat 0 (32 - length sh) /\
    SecretCopy.password out = pwd.
Proof.
  intros Hs Hp.
  unfold SecretCopy.generateProverData. cbn [SecretCopy.blob].
  rewrite copy_loop_pad.
  change 32 with (Z.of_nat 32). rewrite !zlen_eqb_nat, length_app, repeat_length, Hp.
  replace (Nat.eqb (length sh + (32 - length sh)) 32) with true
    by (symmetry; apply Nat.eqb_eq; lia).
  cbn. eexists. split; [reflexivity|]. split; reflexivity.
Qed.

(** X9. The [generateProverData] of check_jwt.ts succeeds exactly when the
    password has 32 bytes and the stored hash at most 32: its blob is then
    the stored hash followed by zeros up to 32 bytes; a longer stored hash
    is copied past the 32 zeros and rejected with "HyliOutput blob must be
    32 bytes", a check made before the password's. *)
Theorem generateProverData_copy_blob (id : jsstring) (pwd sh : bytes) (tx : jsstring)
  (bi cnt : Z) :
  ((length sh <= 32)%nat -> length pwd = 32%nat ->
     exists out, SecretCopy.generateProverData id pwd sh tx bi cnt = Ok out /\
       SecretCopy.blob (SecretCopy.hyli_output out) = sh ++ repeat 0 (32 - length sh) /\
       SecretCopy.password out = pwd) /\
  ((32 < length sh)%nat ->
     SecretCopy.generateProverData id pwd sh tx bi cnt
     = Err (Error "HyliOutput blob must be 32 bytes")) /\
  ((length sh <= 32)%nat -> length pwd <> 32%nat ->
     SecretCopy.generateProverData id pwd sh tx bi cnt
     = Err (Error "Password length is not 32 bytes")).
Proof.
  split; [apply copy_generateProverData_ok|].
  unfold SecretCopy.generateProverData. cbn [SecretCopy.blob].
  rewrite copy_loop_pad.
  change 32 with (Z.of_nat 32). rewrite !zlen_eqb_nat, length_app, repeat_length.
  split.
  - intros Hs.
    replace (Nat.eqb (length sh + (32 - length sh)) 32) with false
      by (symmetry; apply Nat.eqb_neq; lia).
    reflexivity.
  - intros Hs Hp.
    replace (Nat.eqb (length sh + (32 - length sh)) 32) with true
      by (symmetry; apply Nat.eqb_eq; lia).
    replace (Nat.eqb (length pwd) 32) with false by (symmetry; apply Nat.eqb_neq; lia).
    reflexivity.
Qed.

(** X10. When SHA-256 returns 32 bytes, [generateProverData] accepts what
    the [build_proof_transaction] of check_jwt.ts's secret-check copy passes
    it: the prover data holds the data of the blob [build_blob] makes for
    the same identity and password, and the SHA-256 of the password. The
    transaction is then, for any verification key, execution, proving and
    flattening results: [getVerificationKey], [noir_execute] on that prover
    data, [generateProof], [flattenFieldsAsArray] of the public inputs, each
    error propagated, packaged as a ["check_secret"] / ["noir"] transaction
    whose proof is the flattened inputs followed by the backend proof. *)
Theorem build_proof_transaction_copy_inputs (Witness : Type) (BigInt : jsstring -> result Z)
  (sha256 : bytes -> bytes) (getVerificationKey : result bytes)
  (noir_execute : SecretCopy.ProverData -> result Witness)
  (generateProof : Witness -> result BackendProof.ProofData)
  (Hsha : forall b, length (sha256 b) = 32%nat)
  (identity password tx_hash : jsstring) (blob_index tx_blob_count : Z) :
  exists blob inputs,
    build_blob sha256 identity password = Ok blob /\
    SecretCopy.generateProverData identity (sha256 (stringToBytes password)) (data blob)
      tx_hash blob_index tx_blob_count = Ok inputs /\
    SecretCopy.blob (SecretCopy.hyli_output inputs) = data blob /\
    SecretCopy.password inputs = sha256 (stringToBytes password) /\
    SecretCopy.build_proof_transaction Witness BigInt sha256 getVerificationKey noir_execute
      generateProof identity password tx_hash blob_index tx_blob_count
    = (vk <- getVerificationKey ;;
       witness <- noir_execute inputs ;;
       proof <- generateProof witness ;;
       flat <- flattenFieldsAsArray BigInt (BackendProof.publicInputs proof) ;;
       Ok {| ProofTx.contract_name := js "check_secret";
             ProofTx.program_id := vk;
             ProofTx.verifier := js "noir";
             ProofTx.proof := reconstructHonkProof flat (BackendProof.proof proof) |}).
Proof.
  set (sh := sha256 (utf8_encode (identity ++ [char_colon]) ++ sha256 (stringToBytes password))).
  destruct (copy_generateProverData_ok identity (sha256 (stringToBytes password)) sh
              tx_hash blob_index tx_blob_count
              ltac:(unfold sh; rewrite Hsha; lia) (Hsha _))
    as [inputs [Hg [Hb Hp]]].
  exists {| contract_name := js "check_secret"; data := sh |}, inputs.
  split; [reflexivity|]. split; [exact Hg|].
  unfold sh in Hb. rewrite Hsha in Hb. simpl in Hb. rewrite app_nil_r in Hb.
  split; [exact Hb|]. split; [exact Hp|].
  unfold SecretCopy.build_proof_transaction. fold sh.
  destruct getVerificationKey as [vk|e]; [|reflexivity]. cbn [bind].
  rewrite Hg. reflexivity.
Qed.

Lemma build_proof_transaction_copy_inputs_witness :
  let sha256 := fun _ : bytes => repeat 7 32 in
  let noir_execute := fun _ : SecretCopy.ProverData => Ok tt in
  let generateProof := fun _ : unit =>
    Ok {| BackendProof.publicInputs := [js "1"]; BackendProof.proof := [5] |} in
  (forall b, length (sha256 b) = 32%nat) /\
  exists blob inputs,
    build_blob sha256 (js "alice") (js "pw") = Ok blob /\
    SecretCopy.generateProverData (js "alice") (sha256 (stringToBytes (js "pw"))) (data blob)
      (js "tx") 0 1 = Ok inputs /\
    SecretCopy.blob (SecretCopy.hyli_output inputs) = data blob /\
    SecretCopy.password inputs = sha256 (stringToBytes (js "pw")) /\
    SecretCopy.build_proof_transaction unit (fun _ => Ok 1) sha256 (Ok [9]) noir_execute
      generateProof (js "alice") (js "pw") (js "tx") 0 1
    = (vk <- Ok [9] ;;
       witness <- noir_execute inputs ;;
       proof <- generateProof witness ;;
       flat <- flattenFieldsAsArray (fun _ => Ok 1) (BackendProof.publicInputs proof) ;;
       Ok {| ProofTx.contract_name := js "check_secret";
             ProofTx.program_id := vk;
             ProofTx.verifier := js "noir";
             ProofTx.proof := reconstructHonkProof flat (BackendProof.proof proof) |}).
Proof.
  intros sha256 noir_execute generateProof.
  assert (H : forall b, length (sha256 b) = 32%nat) by reflexivity.
  split; [exact H|]. apply build_proof_transaction_copy_inputs. exact H.
Defined.

(** ** Splitting the token in [extract_jwt_claims] *)

Lemma split_dot_no_dot (h : jsstring) : ~ In 46 h -> split_dot h = [h].
Proof.
  induction h as [|c h IH]; intros Hn; [reflexivity|].
  simpl. rewrite IH by (intros Hi; apply Hn; right; exact Hi).
  replace (c =? 46) with false; [reflexivity|].
  symmetry. apply Z.eqb_neq. intros ->. apply Hn. left. reflexivity.
Qed.

Lemma split_dot_first (h rest : jsstring) :
  ~ In 46 h -> split_dot (h ++ 46 :: rest) = h :: split_dot rest.
Proof.
  induction h as [|c h IH]; intros Hn; [reflexivity|].
  simpl. rewrite IH by (intros Hi; apply Hn; right; exact Hi).
  replace (c =? 46) with false; [reflexivity|].
  symmetry. apply Z.eqb_neq. intros ->. apply Hn. left. reflexivity.
Qed.

(** X11. [extract_jwt_claims] never looks at the signature: for a header
    and a payload without ["."], the token [header.payload.signature] (the
    signature may contain further dots) gives the same result as
    [header.payload]. *)
Theorem extract_jwt_claims_ignores_signature (JSON_parse : jsstring -> result json)
  (toLowerCase : jsstring -> jsstring) (header payload signature : jsstring) :
  ~ In 46 header -> ~ In 46 payload ->
  extract_jwt_claims JSON_parse toLowerCase (header ++ 46 :: payload ++ 46 :: signature)
  = extract_jwt_claims JSON_parse toLowerCase (header ++ 46 :: payload).
Proof.
  intros Hh Hp. unfold extract_jwt_claims.
  rewrite (split_dot_first header (payload ++ 46 :: signature) Hh),
          (split_dot_first payload signature Hp), (split_dot_first header payload Hh),
          (split_dot_no_dot payload Hp).
  reflexivity.
Qed.

Lemma extract_jwt_claims_ignores_signature_witness :
  ~ In 46 (js "e30") /\
  extract_jwt_claims (fun _ => Ok JNull) (fun s => s) (js "e30" ++ 46 :: js "e30" ++ 46 :: js "c2ln")
  = extract_jwt_claims (fun _ => Ok JNull) (fun s => s) (js "e30" ++ 46 :: js "e30").
Proof.
  assert (H : ~ In 46 (js "e30")) by (simpl; intuition lia).
  split; [exact H|]. apply extract_jwt_claims_ignores_signature; exact H.
Defined.

(** X12. A token without ["."] is always rejected by [extract_jwt_claims]:
    its payload segment is [undefined], which [atob] reads as the string
    ["undefined"], of length 9, and rejects. *)
Theorem extract_jwt_claims_needs_dot (JSON_parse : jsstring -> result json)
  (toLowerCase : jsstring -> jsstring) (jwt : jsstring) :
  ~ In 46 jwt -> is_ok (extract_jwt_claims JSON_parse toLowerCase jwt) = false.
Proof.
  intros Hn. unfold extract_jwt_claims. rewrite split_dot_no_dot by exact Hn.
  cbv zeta. unfold segment at 1. cbn [nth_error].
  destruct (atob jwt); [|reflexivity]. cbn [bind].
  destruct (JSON_parse a); [|reflexivity]. reflexivity.
Qed.

Lemma extract_jwt_claims_needs_dot_witness :
  ~ In 46 (js "e30") /\
  is_ok (extract_jwt_claims (fun _ => Ok JNull) (fun s => s) (js "e30")) = false.
Proof.
  assert (H : ~ In 46 (js "e30")) by (simpl; intuition lia).
  split; [exact H|]. apply extract_jwt_claims_needs_dot; exact H.
Defined.

(** ** From the JWT blob to the circuit input *)

Lemma build_stored_hash_key (number : Type) (Number_toString : number -> jsstring)
  (poseidon2Hash : Z -> result bytes) (email : jsstring) (nonce : number)
  (pubkey : jsstring) (h key : bytes) :
  poseidon_hash poseidon2Hash email = Ok h ->
  Forall is_ascii_unit (Number_toString nonce) ->
  (length (Number_toString nonce) <= 16)%nat ->
  b64urlToU8 pubkey = Ok key ->
  build_stored_hash number Number_toString poseidon2Hash email nonce (Some pubkey)
  = Ok {| StoredHash.mail_hash := h;
          StoredHash.stored_hash :=
            h ++ [58] ++ Number_toString nonce
              ++ repeat 0 (16 - length (Number_toString nonce)) ++ [58] ++ rev key |}.
Proof.
  intros Hh Hascii Hlen Hk.
  unfold build_stored_hash. rewrite Hh. cbn [bind].
  rewrite (Uint8Array_from_ascii _ Hascii).
  unfold new_array_fill0, zlen.
  replace (16 - Z.of_nat (length (Number_toString nonce)) <? 0) with false
    by (symmetry; apply Z.ltb_ge; lia).
  cbn [bind]. rewrite Hk. cbn [bind].
  replace (Z.to_nat (16 - Z.of_nat (length (Number_toString nonce))))
    with (16 - length (Number_toString nonce))%nat by lia.
  reflexivity.
Qed.

(** X13. For a 32-byte Poseidon hash, an ASCII nonce string of at most 16
    characters and a 2048-bit (256-byte) modulus, [build_stored_hash]
    returns a 306-byte stored hash, which [generateHyli] of check_jwt.ts
    accepts and pads with 206 zeros up to its 512-byte capacity. *)
Theorem stored_hash_fits_generateHyli (number : Type) (Number_toString : number -> jsstring)
  (poseidon2Hash : Z -> result bytes) (email : jsstring) (nonce : number) (m h : bytes)
  (id tx : jsstring) (blob_index tx_blob_count : Z) :
  poseidon_hash poseidon2Hash email = Ok h -> length h = 32%nat ->
  Forall is_ascii_unit (Number_toString nonce) ->
  (length (Number_toString nonce) <= 16)%nat ->
  Forall is_byte m -> length m = 256%nat ->
  exists sh hyli,
    build_stored_hash number Number_toString poseidon2Hash email nonce
      (Some (spec_b64url_encode m)) = Ok sh /\
    length (StoredHash.stored_hash sh) = 306%nat /\
    CheckJwt.generateHyli id (StoredHash.stored_hash sh) tx blob_index tx_blob_count = Ok hyli /\
    CheckJwt.blob hyli = StoredHash.stored_hash sh ++ repeat 0 206.
Proof.
  intros Hh Hh32 Hascii Hlen Hm Hm256.
  eexists. eexists. split.
  { apply build_stored_hash_key; try eassumption. apply b64urlToU8_roundtrip, Hm. }
  cbn [StoredHash.stored_hash].
  assert (Hl : length (h ++ [58] ++ Number_toString nonce
                       ++ repeat 0 (16 - length (Number_toString nonce)) ++ [58] ++ rev m)
               = 306%nat).
  { rewrite !length_app, repeat_length, length_rev. cbn [length]. lia. }
  split; [exact Hl|].
  unfold CheckJwt.generateHyli. change 306 with (Z.of_nat 306).
  rewrite zlen_eqb_nat, Hl. cbn [Nat.eqb assert bind].
  split; [reflexivity|]. cbn [CheckJwt.blob].
  pose proof (copy_loop_spec (h ++ [58] ++ Number_toString nonce
                       ++ repeat 0 (16 - length (Number_toString nonce)) ++ [58] ++ rev m)
                [] (repeat 0 512)) as Hc.
  change (length (@nil Z)) with 0%nat in Hc. rewrite !app_nil_l in Hc.
  rewrite Hc by (rewrite Hl, repeat_length; lia).
  rewrite Hl. reflexivity.
Qed.

Lemma stored_hash_fits_generateHyli_witness :
  let toString := fun _ : Z => js "12345" in
  let poseidon := fun _ : Z => Ok (repeat 9 32) in
  (poseidon_hash poseidon (js "a@b.c") = Ok (repeat 9 32) /\ length (repeat 9 32) = 32%nat /\
   Forall is_ascii_unit (toString 12345) /\ (length (toString 12345%Z) <= 16)%nat /\
   Forall is_byte (repeat 1 256) /\ length (repeat 1 256) = 256%nat) /\
  exists sh hyli,
    build_stored_hash Z toString poseidon (js "a@b.c") 12345
      (Some (spec_b64url_encode (repeat 1 256))) = Ok sh /\
    length (StoredHash.stored_hash sh) = 306%nat /\
    CheckJwt.generateHyli (js "alice") (StoredHash.stored_hash sh) (js "tx") 0 1 = Ok hyli /\
    CheckJwt.blob hyli = StoredHash.stored_hash sh ++ repeat 0 206.
Proof.
  intros toString poseidon.
  assert (H1 : poseidon_hash poseidon (js "a@b.c") = Ok (repeat 9 32)) by reflexivity.
  assert (H2 : Forall is_ascii_unit (toString 12345))
    by (repeat constructor; unfold is_ascii_unit; lia).
  assert (H3 : Forall is_byte (repeat 1 256))
    by (apply Forall_forall; intros x Hx; apply repeat_spec in Hx; subst x;
        unfold is_byte; lia).
  split; [split; [exact H1|split; [reflexivity|split; [exact H2|split; [simpl; lia|
          split; [exact H3|reflexivity]]]]]|].
  apply (stored_hash_fits_generateHyli Z toString poseidon (js "a@b.c") 12345
           (repeat 1 256) (repeat 9 32)); try assumption; try reflexivity. simpl. lia.
Defined.

Lemma find_first {A} (p : A -> bool) (l : list A) (x : A) :
  find p l = Some x ->
  exists pre post, l = pre ++ x :: post /\ Forall (fun y => p y = false) pre /\ p x = true.
Proof.
  induction l as [|y l IH]; intros H; [discriminate|].
  simpl in H. destruct (p y) eqn:E.
  - injection H as <-. exists [], l. split; [reflexivity|]. split; [constructor|exact E].
  - destruct (IH H) as [pre [post [Hl [Hpre Hx]]]].
    exists (y :: pre), post. rewrite Hl. split; [reflexivity|].
    split; [constructor; assumption|exact Hx].
Qed.

Lemma poseidon_hash_Ok (poseidon2Hash : Z -> result bytes) (s : jsstring) (h : bytes) :
  poseidon_hash poseidon2Hash s = Ok h -> exists v, poseidon2Hash v = Ok h.
Proof.
  unfold poseidon_hash. destruct (new_Fr _) as [v|e]; [|discriminate].
  cbn [bind]. intros H. exists v. exact H.
Qed.

Lemma build_stored_hash_length (number : Type) (Number_toString : number -> jsstring)
  (poseidon2Hash : Z -> result bytes) (email : jsstring) (nonce : number)
  (s : jsstring) (k : bytes) (hash : StoredHash.StoredHash) :
  (forall v h, poseidon2Hash v = Ok h -> length h = 32%nat) ->
  b64urlToU8 s = Ok k ->
  build_stored_hash number Number_toString poseidon2Hash email nonce (Some s) = Ok hash ->
  length (StoredHash.stored_hash hash) = (50 + length k)%nat.
Proof.
  intros Hp Hk. unfold build_stored_hash.
  destruct (poseidon_hash poseidon2Hash email) as [mh|e] eqn:Ep; [|discriminate].
  cbn [bind]. cbv zeta.
  destruct (new_array_fill0 _) as [zeros|e] eqn:Ez; [|discriminate].
  cbn [bind]. rewrite Hk. cbn [bind]. intros H.
  assert (Hs : StoredHash.stored_hash hash
               = mh ++ [58] ++ Uint8Array_from_charCodes (Number_toString nonce)
                   ++ zeros ++ [58] ++ rev k) by (injection H as <-; reflexivity).
  rewrite Hs.
  destruct (poseidon_hash_Ok _ _ _ Ep) as [v Hv]. apply Hp in Hv.
  assert (Hz : (length zeros + length (Uint8Array_from_charCodes (Number_toString nonce))
                = 16)%nat).
  { revert Ez. unfold new_array_fill0, zlen.
    destruct (Z.ltb_spec
                (16 - Z.of_nat (length (Uint8Array_from_charCodes (Number_toString nonce)))) 0)
      as [Hlt|Hge]; [discriminate|].
    intros Ez.
    assert (Hzs : repeat 0 (Z.to_nat (16 - Z.of_nat (length (Uint8Array_from_charCodes
                                                               (Number_toString nonce)))))
                  = zeros) by congruence.
    rewrite <- Hzs, repeat_length. lia. }
  rewrite !length_app, length_rev, Hv. cbn [length]. lia.
Qed.

Lemma generateHyli_306 (id : jsstring) (sh : bytes) (tx : jsstring) (blob_index tx_blob_count : Z) :
  length sh = 306%nat ->
  exists hyli, CheckJwt.generateHyli id sh tx blob_index tx_blob_count = Ok hyli /\
               CheckJwt.blob hyli = sh ++ repeat 0 206.
Proof.
  intros Hl. unfold CheckJwt.generateHyli. change 306 with (Z.of_nat 306).
  rewrite zlen_eqb_nat, Hl. cbn [Nat.eqb assert bind].
  eexists. split; [reflexivity|]. cbn [CheckJwt.blob].
  pose proof (copy_loop_spec sh [] (repeat 0 512)) as Hc.
  change (length (@nil Z)) with 0%nat in Hc. rewrite !app_nil_l in Hc.
  rewrite Hc by (rewrite Hl, repeat_length; lia).
  rewrite Hl. reflexivity.
Qed.

Section KeyChoice.
Variable number : Type.
Variable Number_toString : number -> jsstring.
Variable parseInt10 : jsstring -> number.
Variable poseidon2Hash : Z -> result bytes.
Variable number_truthy : jsstring -> bool.
Variable loose_eq : jsstring -> option json -> bool.
Variable JSON_parse : jsstring -> result json.
Variable toLowerCase : jsstring -> jsstring.

(** What a successful [build_blob_from_jwt] is made of. *)
Lemma build_blob_from_jwt_success (jwt : jsstring) (keys : list Jwk.SigningKey)
  (res : BlobFromJwt.BlobFromJwt number) :
  build_blob_from_jwt number Number_toString parseInt10 poseidon2Hash number_truthy
    loose_eq JSON_parse toLowerCase jwt keys = Ok res ->
  exists claims pre post hash,
    extract_jwt_claims JSON_parse toLowerCase jwt = Ok claims /\
    keys = pre ++ BlobFromJwt.pubkey _ res :: post /\
    Forall (fun key => loose_eq (Jwk.kid key) (JwtClaims.kid claims) = false) pre /\
    loose_eq (Jwk.kid (BlobFromJwt.pubkey _ res)) (JwtClaims.kid claims) = true /\
    BlobFromJwt.nonce _ res = parseInt10 (JwtClaims.nonce claims) /\
    build_stored_hash number Number_toString poseidon2Hash (JwtClaims.email claims)
      (BlobFromJwt.nonce _ res) (Jwk.n (BlobFromJwt.pubkey _ res)) = Ok hash /\
    BlobFromJwt.mail_hash _ res = StoredHash.mail_hash hash /\
    BlobFromJwt.blob _ res = {| contract_name := jwt_contract_name;
                                data := StoredHash.stored_hash hash |}.
Proof.
  unfold build_blob_from_jwt. intros H.
  destruct (extract_jwt_claims JSON_parse toLowerCase jwt) as [claims|e]; [|discriminate].
  cbn [bind] in H.
  destruct (_ || _ || _); [discriminate|].
  destruct (find _ keys) as [key|] eqn:Ef; [|discriminate].
  destruct (build_stored_hash _ _ _ _ _ _) as [hash|e] eqn:Eh; [|discriminate].
  cbn [bind] in H. injection H as <-. cbn.
  destruct (find_first _ _ _ Ef) as [pre [post [Hk [Hpre Hx]]]].
  exists claims, pre, post, hash. auto 10.
Qed.

(** X14. When every key of [keys] has a modulus [n] that [b64urlToU8]
    decodes to 256 bytes (2048-bit RSA keys) and Poseidon2 hashes have 32
    bytes, the blob data of every successful [build_blob_from_jwt] has 306
    bytes, the length [generateHyli] demands: [generateHyli] accepts it and
    pads it with 206 zero bytes. No condition on the nonce is needed: a
    nonce longer than 16 characters makes [build_blob_from_jwt] throw. *)
Theorem build_blob_from_jwt_fits_generateHyli (jwt : jsstring) (keys : list Jwk.SigningKey)
  (res : BlobFromJwt.BlobFromJwt number) (id tx : jsstring) (blob_index tx_blob_count : Z) :
  (forall v h, poseidon2Hash v = Ok h -> length h = 32%nat) ->
  Forall (fun key => exists s k, Jwk.n key = Some s /\ b64urlToU8 s = Ok k /\
                                 length k = 256%nat) keys ->
  build_blob_from_jwt number Number_toString parseInt10 poseidon2Hash number_truthy
    loose_eq JSON_parse toLowerCase jwt keys = Ok res ->
  length (data (BlobFromJwt.blob _ res)) = 306%nat /\
  exists hyli,
    CheckJwt.generateHyli id (data (BlobFromJwt.blob _ res)) tx blob_index tx_blob_count
    = Ok hyli /\
    CheckJwt.blob hyli = data (BlobFromJwt.blob _ res) ++ repeat 0 206.
Proof.
  intros Hp Hkeys H.
  destruct (build_blob_from_jwt_success jwt keys res H)
    as [claims [pre [post [hash [_ [Hk [_ [_ [_ [Hh [_ Hb]]]]]]]]]]].
  assert (Hin : In (BlobFromJwt.pubkey _ res) keys) by (rewrite Hk; apply in_elt).
  rewrite Forall_forall in Hkeys.
  destruct (Hkeys _ Hin) as [s [k [Hn [Hdec Hlen]]]].
  rewrite Hn in Hh.
  pose proof (build_stored_hash_length _ _ _ _ _ _ _ _ Hp Hdec Hh) as Hl.
  rewrite Hlen in Hl. cbn in Hl.
  rewrite Hb. cbn [data]. split; [exact Hl|].
  apply generateHyli_306. exact Hl.
Qed.
End KeyChoice.

Lemma build_blob_from_jwt_fits_generateHyli_witness :
  let poseidon2Hash := fun _ : Z => Ok (repeat 9 32) in
  let keys := [{| Jwk.kid := js "k1"; Jwk.n := Some (spec_b64url_encode (repeat 2 256)) |};
               {| Jwk.kid := js "k2"; Jwk.n := Some (spec_b64url_encode (repeat 1 256)) |}] in
  let build := build_blob_from_jwt Z (fun _ => js "7") (fun _ => 7) poseidon2Hash
                 (fun _ => true) kid_eq (fun _ => Ok sample_claims_json) (fun s => s) in
  let res := {| BlobFromJwt.blob := {| contract_name := jwt_contract_name;
                                       data := repeat 9 32 ++ [58] ++ js "7" ++ repeat 0 15
                                               ++ [58] ++ repeat 1 256 |};
                BlobFromJwt.nonce := 7; BlobFromJwt.mail_hash := repeat 9 32;
                BlobFromJwt.pubkey := {| Jwk.kid := js "k2";
                                         Jwk.n := Some (spec_b64url_encode (repeat 1 256)) |} |} in
  ((forall v h, poseidon2Hash v = Ok h -> length h = 32%nat) /\
   Forall (fun key => exists s k, Jwk.n key = Some s /\ b64urlToU8 s = Ok k /\
                                  length k = 256%nat) keys /\
   build (js "e30.e30") keys = Ok res) /\
  length (data (BlobFromJwt.blob _ res)) = 306%nat /\
  exists hyli,
    CheckJwt.generateHyli (js "alice") (data (BlobFromJwt.blob _ res)) (js "tx") 0 1 = Ok hyli /\
    CheckJwt.blob hyli = data (BlobFromJwt.blob _ res) ++ repeat 0 206.
Proof.
  intros poseidon2Hash keys build res.
  assert (Hp : forall v h, poseidon2Hash v = Ok h -> length h = 32%nat)
    by (intros v h E; injection E as <-; reflexivity).
  assert (Hb : forall x, (0 <= x < 256) -> Forall is_byte (repeat x 256))
    by (intros x Hx; apply Forall_forall; intros y Hy; apply repeat_spec in Hy; subst y;
        unfold is_byte; lia).
  assert (Hk : Forall (fun key => exists s k, Jwk.n key = Some s /\ b64urlToU8 s = Ok k /\
                                              length k = 256%nat) keys).
  { constructor; [|constructor; [|constructor]].
    - eexists. eexists. split; [reflexivity|].
      split; [apply b64urlToU8_roundtrip, Hb; lia|apply repeat_length].
    - eexists. eexists. split; [reflexivity|].
      split; [apply b64urlToU8_roundtrip, Hb; lia|apply repeat_length]. }
  assert (H : build (js "e30.e30") keys = Ok res) by (vm_compute; reflexivity).
  split; [split; [exact Hp|split; [exact Hk|exact H]]|].
  exact (build_blob_from_jwt_fits_generateHyli Z (fun _ => js "7") (fun _ => 7) poseidon2Hash
           (fun _ => true) kid_eq (fun _ => Ok sample_claims_json) (fun s => s)
           (js "e30.e30") keys res (js "alice") (js "tx") 0 1 Hp Hk H).
Defined.
